(** * BowlingGame: frame segmentation and scoring

    A shallow embedding of [BowlingGame.cpp]: the frame class hierarchy,
    [FrameFactory::createFrame], [BowlingGame::processFrames] and
    [BowlingGame::calculateScore] with its two bonus helpers.

    Conventions of the embedding.
    - [uint8_t] and [uint16_t] values are integers of [Z]; every implicit
      narrowing conversion of the source is written out with [u8] or [u16].
      Arithmetic on them happens in [int] after promotion, hence in [Z].
    - [std::vector] is a [list]; [v[i]] is [at_], which faults when the index
      is past the end, so that a run ending in [Ok] never read out of range.
    - member functions pass the [BowlingGame] object explicitly.

    The console side of the program ([frameType], [displayBoard],
    [getValidatedInput], [processUserInput], [main]) comes after the game: the
    text written to [std::cout] and [std::cerr] is a string that grows, and
    [std::cin] is the input cut into lines of tokens, a token being what one
    [>>] into an [int] meets. *)

From Stdlib Require Import ZArith List Bool Arith Lia.
From Stdlib Require String Ascii DecimalString.
Import ListNotations.
Import String.StringSyntax.
Delimit Scope string_scope with string.
Local Open Scope Z_scope.

(** ** Machine integers *)

Definition u8 (z : Z) : Z := z mod 256.
Definition u16 (z : Z) : Z := z mod 65536.

Definition is_u8 (z : Z) : Prop := 0 <= z < 256.

(** A legal pin count, as the input collector lets it through. *)
Definition valid_roll (z : Z) : Prop := 0 <= z <= 10.

Definition PINS : Z := 10.
Definition FRAMES : Z := 10.
Definition BASE_SCORE : Z := 10.

(** ** Faults and the error monad *)

Inductive fault : Type :=
| OutOfRange   (* a vector read past its end *)
| LoopBudget.  (* a while loop ran longer than its variant allows *)

Inductive result (A : Type) : Type :=
| Ok (a : A)
| Fault (e : fault).

Arguments Ok {A} a.
Arguments Fault {A} e.

Definition bind {A B : Type} (m : result A) (k : A -> result B) : result B :=
  match m with
  | Ok a => k a
  | Fault e => Fault e
  end.

Notation "x <- m ;; k" := (bind m (fun x => k))
  (at level 61, m at next level, right associativity).
Notation "' p <- m ;; k" := (bind m (fun x => let 'p := x in k))
  (at level 61, p pattern, m at next level, right associativity).

(** [v[i]] *)
Definition at_ {A : Type} (v : list A) (i : nat) : result A :=
  match nth_error v i with
  | Some x => Ok x
  | None => Fault OutOfRange
  end.

(** ** Rolls and frames *)

Record Roll : Type := mkRoll { pins : Z }.

(** The data members of the base class [Frame]. *)
Record FrameBase : Type := mkFrame { roll1 : Roll; roll2 : Roll }.

(** [Frame(uint8_t r1, uint8_t r2)] *)
Definition Frame_ctor (r1 r2 : Z) : FrameBase :=
  mkFrame (mkRoll r1) (mkRoll r2).

(** The four derived classes; [TenthFrame] adds two members. *)
Inductive Frame : Type :=
| NormalFrame (base : FrameBase)
| SpareFrame (base : FrameBase)
| StrikeFrame (base : FrameBase)
| TenthFrame (base : FrameBase) (thirdRoll : Z) (thirdRollAllowed : bool).

Definition base_of (f : Frame) : FrameBase :=
  match f with
  | NormalFrame b | SpareFrame b | StrikeFrame b | TenthFrame b _ _ => b
  end.

Definition firstRoll (f : Frame) : Z := pins (roll1 (base_of f)).
Definition secondRoll (f : Frame) : Z := pins (roll2 (base_of f)).

Definition thirdRoll_of (f : Frame) : Z :=
  match f with
  | TenthFrame _ r3 _ => r3
  | _ => 0
  end.

(** [Frame::isStrike()], line 59 *)
Definition isStrike (f : Frame) : bool := firstRoll f =? BASE_SCORE.

(** [Frame::isSpare()], line 63 *)
Definition isSpare (f : Frame) : bool :=
  (firstRoll f + secondRoll f =? BASE_SCORE) && negb (firstRoll f =? BASE_SCORE).

(** [TenthFrame::isStrike(uint8_t pins)], line 148 *)
Definition isStrike_pins (p : Z) : bool := p =? PINS.

(** Constructors of the derived classes, lines 77, 95, 113 and 135-140. *)
Definition new_NormalFrame (r1 r2 : Z) : Frame := NormalFrame (Frame_ctor r1 r2).

Definition new_SpareFrame (r1 : Z) : Frame :=
  SpareFrame (Frame_ctor r1 (u8 (PINS - r1))).

Definition new_StrikeFrame : Frame := StrikeFrame (Frame_ctor PINS 0).

Definition new_TenthFrame (r1 r2 r3 : Z) : Frame :=
  let b := Frame_ctor r1 r2 in
  let allowed := false in
  let allowed :=
    if isStrike_pins r1 || isSpare (TenthFrame b r3 allowed) then true else allowed in
  TenthFrame b r3 allowed.

(** [score()], one override per class (lines 80, 98, 116, 144); the result
    type is [uint16_t]. *)
Definition score (f : Frame) : Z :=
  match f with
  | NormalFrame b => u16 (pins (roll1 b) + pins (roll2 b))
  | SpareFrame _ => BASE_SCORE
  | StrikeFrame _ => BASE_SCORE
  | TenthFrame b r3 _ => u16 (pins (roll1 b) + pins (roll2 b) + r3)
  end.

(** The class of a frame object. *)
Inductive variant : Type := Normal | Spare | Strike | Tenth.

Definition variant_of (f : Frame) : variant :=
  match f with
  | NormalFrame _ => Normal
  | SpareFrame _ => Spare
  | StrikeFrame _ => Strike
  | TenthFrame _ _ _ => Tenth
  end.

(** ** FrameFactory *)

(** [FrameFactory::createFrame], lines 164-174; every argument is a
    [uint8_t]. *)
Definition createFrame (frameIndex r1 r2 r3 : Z) : Frame :=
  if frameIndex =? FRAMES - 1 then new_TenthFrame r1 r2 r3
  else if r1 =? BASE_SCORE then new_StrikeFrame
  else if r1 + r2 =? BASE_SCORE then new_SpareFrame r1
  else new_NormalFrame r1 r2.

(** ** BowlingGame *)

Record BowlingGame : Type := mkGame {
  m_rolls : list Z;
  m_scores : list Z;
  m_frames : list Frame
}.

Definition newGame : BowlingGame := mkGame [] [] [].

(** [roll(uint8_t pins)], line 184 *)
Definition roll (p : Z) (g : BowlingGame) : BowlingGame :=
  mkGame (m_rolls g ++ [p]) (m_scores g) (m_frames g).

(** [v.size()] as an integer. *)
Definition size {A : Type} (v : list A) : Z := Z.of_nat (length v).

(** The while loop of [processFrames], lines 192-196, on the pair
    ([m_frames], [i]).  The guard is the source's; [budget] bounds the
    iterations and is only ever consulted when the guard has let an iteration
    start.  Nine suffice, one per frame slot: see [segment_spec]. *)
Fixpoint framesLoop (budget : nat) (rolls : list Z) (frames : list Frame) (i : nat)
  : result (list Frame * nat) :=
  if (size frames <? FRAMES - 1) && (i <? length rolls)%nat then
    match budget with
    | O => Fault LoopBudget
    | S budget' =>
        r1 <- at_ rolls i ;;
        let i := S i in
        ' (r2, i) <- (if negb (r1 =? PINS) && (i <? length rolls)%nat
                      then r <- at_ rolls i ;; Ok (r, S i)
                      else Ok (0, i)) ;;
        framesLoop budget' rolls
          (frames ++ [createFrame (u8 (size frames)) r1 r2 0]) i
    end
  else Ok (frames, i).

(** The block after the loop, lines 199-204: the tenth frame. *)
Definition tenthBlock (rolls : list Z) (frames : list Frame) (i : nat)
  : result (list Frame) :=
  if (i <? length rolls)%nat then
    r1 <- at_ rolls i ;;
    let i := S i in
    ' (r2, i) <- (if (i <? length rolls)%nat
                  then r <- at_ rolls i ;; Ok (r, S i)
                  else Ok (0, i)) ;;
    ' (r3, i) <- (if (i <? length rolls)%nat && ((r1 =? PINS) || (r1 + r2 =? PINS))
                  then r <- at_ rolls i ;; Ok (r, S i)
                  else Ok (0, i)) ;;
    Ok (frames ++ [createFrame (FRAMES - 1) r1 r2 r3])
  else Ok frames.

(** The frame list [processFrames] leaves in [m_frames]. *)
Definition segment (rolls : list Z) : result (list Frame) :=
  ' (frames, i) <- framesLoop (Z.to_nat (FRAMES - 1)) rolls [] 0%nat ;;
  tenthBlock rolls frames i.

Definition processFrames (g : BowlingGame) : result BowlingGame :=
  frames <- segment (m_rolls g) ;;
  Ok (mkGame (m_rolls g) (m_scores g) frames).

(** [strikeBonus(int index)], lines 261-270; the result and [bonus] are
    [uint8_t]. *)
Definition strikeBonus (rolls : list Z) (index : nat) : result Z :=
  if (index + 1 <? length rolls)%nat then
    bonus <- at_ rolls (index + 1) ;;
    if (index + 2 <? length rolls)%nat then
      r <- at_ rolls (index + 2) ;;
      Ok (u8 (bonus + r))
    else Ok bonus
  else Ok 0.

(** [spareBonus(int index)], lines 271-276 *)
Definition spareBonus (rolls : list Z) (index : nat) : result Z :=
  if (index + 2 <? length rolls)%nat then at_ rolls (index + 2)
  else Ok 0.

(** The locals of [calculateScore] together with [m_scores]. *)
Record ScoreState : Type := mkScore {
  totalScore : Z;
  rollIndex : nat;
  scores : list Z
}.

(** What the [if (i < FRAMES - 1)] block, lines 239-245, adds to
    [frameScore]. *)
Definition frameBonus (rolls : list Z) (i : nat) (f : Frame) (rollIndex : nat)
  : result Z :=
  if Z.of_nat i <? FRAMES - 1 then
    if isStrike f then strikeBonus rolls rollIndex
    else if isSpare f then spareBonus rolls rollIndex
    else Ok 0
  else Ok 0.

(** One iteration of the for loop of [calculateScore], lines 237-249, at
    [m_frames[i] = f]. *)
Definition scoreStep (rolls : list Z) (i : nat) (f : Frame) (st : ScoreState)
  : result ScoreState :=
  let frameScore := score f in
  bonus <- frameBonus rolls i f (rollIndex st) ;;
  let frameScore := frameScore + bonus in
  let totalScore := totalScore st + frameScore in
  Ok (mkScore totalScore
              (rollIndex st + (if isStrike f then 1 else 2))%nat
              (scores st ++ [u16 totalScore])).

(** The for loop, over the frames from index [i] on. *)
Fixpoint scoreLoop (rolls : list Z) (frames : list Frame) (i : nat) (st : ScoreState)
  : result ScoreState :=
  match frames with
  | [] => Ok st
  | f :: rest =>
      st' <- scoreStep rolls i f st ;;
      scoreLoop rolls rest (S i) st'
  end.

Definition initScore : ScoreState := mkScore 0 0%nat [].

(** [calculateScore()], lines 230-253: the returned total and the updated
    object. *)
Definition calculateScore (g : BowlingGame) : result (Z * BowlingGame) :=
  st <- scoreLoop (m_rolls g) (m_frames g) 0%nat initScore ;;
  Ok (totalScore st, mkGame (m_rolls g) (scores st) (m_frames g)).

(** [main] without [USER_DRIVEN], lines 344-350: feed the rolls, segment,
    score. *)
Definition play (rolls : list Z) : result (Z * BowlingGame) :=
  let game := fold_left (fun g r => roll r g) rolls newGame in
  game <- processFrames game ;;
  calculateScore game.

Definition main_rolls : list Z :=
  [1; 4; 4; 5; 6; 4; 5; 5; 10; 0; 1; 7; 3; 6; 4; 10; 2; 8; 6].

(** ** The console *)

Infix "+++" := String.append (right associativity, at level 60).

(** The character written by ["\n"] and by [std::endl]. *)
Definition nl : String.string :=
  String.String (Ascii.ascii_of_nat 10) String.EmptyString.

(** [std::to_string] of an [int], and [<<] of an integer: plain decimal. *)
Definition to_string (z : Z) : String.string :=
  DecimalString.NilZero.string_of_int (Z.to_int z).

(** [frameType()], one override per class (lines 84, 102, 120, 152-159). *)
Definition frameType (f : Frame) : String.string :=
  match f with
  | NormalFrame b =>
      (to_string (pins (roll1 b)) +++ " "%string) +++ to_string (pins (roll2 b))
  | SpareFrame b => to_string (pins (roll1 b)) +++ " / "%string
  | StrikeFrame _ => "X"%string
  | TenthFrame _ thirdRoll thirdRollAllowed =>
      let frame :=
        if isStrike_pins (firstRoll f) then " X"%string
        else to_string (firstRoll f) in
      let frame :=
        frame +++
        (if isStrike_pins (secondRoll f) then " X"%string
         else if isSpare f then " /"%string
         else " "%string +++ to_string (secondRoll f)) in
      if thirdRollAllowed
      then frame +++
           ((if isStrike_pins thirdRoll then "X "%string else " "%string)
            +++ to_string thirdRoll)
      else frame
  end.

(** What one extraction [std::cin >> pins] meets: the text of an integer, or
    anything else. *)
Inductive token : Type :=
| Num (z : Z)
| Junk.

(** The three standard streams: the unread input, line by line, and the text
    written so far. *)
Record Console : Type := mkConsole {
  cin : list (list token);
  cout : String.string;
  cerr : String.string
}.

(** [std::cout << s] *)
Definition put (s : String.string) (con : Console) : Console :=
  mkConsole (cin con) (cout con +++ s) (cerr con).

Definition invalid_input : String.string :=
  "Invalid input! Enter a number between 0 and 10."%string +++ nl.

(** The loop of [getValidatedInput], lines 285-296, over the unread lines.
    One extraction skips the line ends before the next token, so an empty line
    is passed without a new prompt.  A token that is no integer, or an integer
    outside [0, PINS] (among them those no [int] can hold, which make the
    extraction fail), is refused and the rest of its line discarded.  When the
    input has run out every extraction fails and the source prompts for ever:
    that is the fault [LoopBudget]. *)
Fixpoint inputLoop (prompt : String.string) (lines : list (list token))
  (out err : String.string) : result (Z * Console) :=
  match lines with
  | [] => Fault LoopBudget
  | [] :: rest => inputLoop prompt rest out err
  | (Num z :: more) :: rest =>
      let out := out +++ prompt in
      if (z <? 0) || (z >? PINS)
      then inputLoop prompt rest out (err +++ invalid_input)
      else Ok (u8 z, mkConsole (more :: rest) out err)
  | (Junk :: _) :: rest =>
      inputLoop prompt rest (out +++ prompt) (err +++ invalid_input)
  end.

(** [getValidatedInput(prompt)] *)
Definition getValidatedInput (prompt : String.string) (con : Console)
  : result (Z * Console) :=
  inputLoop prompt (cin con) (cout con) (cerr con).

(** The while loop of [processUserInput], lines 305-334; [frameCount] is a
    [uint8_t], and [budget] is consulted as in [framesLoop]. *)
Fixpoint userLoop (budget : nat) (frameCount : Z) (game : BowlingGame)
  (con : Console) : result (BowlingGame * Console) :=
  if frameCount <? FRAMES then
    match budget with
    | O => Fault LoopBudget
    | S budget' =>
        let con :=
          put ("-----> Roll for frame "%string +++ to_string (frameCount + 1) +++ nl)
              con in
        ' (firstRoll, con) <- getValidatedInput "Enter Roll 1: "%string con ;;
        let game := roll firstRoll game in
        if frameCount =? FRAMES - 1 then
          let prompt :=
            if firstRoll =? PINS then "Enter Extra Roll: "%string
            else "Enter Roll 2: "%string in
          ' (secondRoll, con) <- getValidatedInput prompt con ;;
          let game := roll secondRoll game in
          if (firstRoll =? PINS) || (firstRoll + secondRoll =? PINS) then
            ' (thirdRoll, con) <- getValidatedInput "Enter Extra Roll: "%string con ;;
            Ok (roll thirdRoll game, con)
          else Ok (game, con)
        else if firstRoll =? PINS then
          userLoop budget' (u8 (frameCount + 1)) game con
        else
          ' (secondRoll, con) <- getValidatedInput "Enter Roll 2: "%string con ;;
          let game := roll secondRoll game in
          userLoop budget' (u8 (frameCount + 1)) game con
    end
  else Ok (game, con).

(** [processUserInput(game)] *)
Definition processUserInput (game : BowlingGame) (con : Console)
  : result (BowlingGame * Console) :=
  userLoop (Z.to_nat FRAMES) 0 game con.

(** [std::setw(w)] before a string or a number: spaces on the left up to
    width [w]. *)
Fixpoint spaces (n : nat) : String.string :=
  match n with
  | O => String.EmptyString
  | S n' => " "%string +++ spaces n'
  end.

Definition setw (w : nat) (s : String.string) : String.string :=
  spaces (w - String.length s) +++ s.

(** One column of the board: [" " << std::setw(4) << x << " |"]. *)
Definition cell (s : String.string) : String.string :=
  (" "%string +++ setw 4 s) +++ " |"%string.

Definition rule : String.string :=
  nl +++ "-----------------------------------------------------------------------------"%string
     +++ nl.

(** The three loops of [displayBoard], lines 210, 216 and 223. *)
Definition frameCells : String.string :=
  String.concat String.EmptyString
    (map (fun i => cell (to_string (Z.of_nat i))) (seq 1 (Z.to_nat FRAMES))).

Definition rollCells (frames : list Frame) : String.string :=
  String.concat String.EmptyString (map (fun f => cell (frameType f)) frames).

Definition scoreCells (scores : list Z) : String.string :=
  String.concat String.EmptyString (map (fun s => cell (to_string s)) scores).

(** [displayBoard()], lines 208-228. *)
Definition displayBoard (g : BowlingGame) (con : Console) : Console :=
  let con := put (nl +++ "Frame |"%string) con in
  let con := put frameCells con in
  let con := put rule con in
  let con := put "Rolls |"%string con in
  let con := put (rollCells (m_frames g)) con in
  let con := put rule con in
  let con := put "Score |"%string con in
  let con := put (scoreCells (m_scores g)) con in
  put nl con.

(** The end of [main], lines 349-354, returning its exit status. *)
Definition finish (game : BowlingGame) (con : Console) : result (Z * Console) :=
  game <- processFrames game ;;
  ' (totalSocre, game) <- calculateScore game ;;
  let con := displayBoard game con in
  let con := put ("Total score: "%string +++ to_string totalSocre +++ nl) con in
  Ok (0, con).

(** [main] with [USER_DRIVEN], and without. *)
Definition main_user (con : Console) : result (Z * Console) :=
  ' (game, con) <- processUserInput newGame con ;;
  finish game con.

Definition main_fixed (con : Console) : result (Z * Console) :=
  finish (fold_left (fun g r => roll r g) main_rolls newGame) con.

(** ** Specification vocabulary *)

(** The roll cursor [calculateScore] holds when it reaches the frame that
    follows [frames]: one roll per strike, two per other frame. *)
Definition advance (c : nat) (f : Frame) : nat :=
  (c + (if isStrike f then 1 else 2))%nat.

Definition cursor (frames : list Frame) : nat := fold_left advance frames 0%nat.

(** Each entry is at least the one before it. *)
Definition nondecreasing (l : list Z) : Prop :=
  forall k a b, nth_error l k = Some a -> nth_error l (S k) = Some b -> a <= b.

(** The rolls of a sequence taken two by two, each pair summing below ten. *)
Fixpoint open_pairs (rolls : list Z) : Prop :=
  match rolls with
  | a :: b :: rest => a + b < 10 /\ open_pairs rest
  | _ => True
  end.

Definition sum_rolls (rolls : list Z) : Z := fold_right Z.add 0 rolls.

(** A frame that earns no bonus wherever it stands. *)
Definition plain (f : Frame) : Prop := isStrike f = false /\ isSpare f = false.

Definition sum_scores (frames : list Frame) : Z :=
  fold_right (fun f acc => score f + acc) 0 frames.

(** The third roll the tenth-frame block reads when the frame starts at roll
    [c]: the roll at [c + 2] if there is one and the first two rolls earned
    it, else 0. *)
Definition third_read (rolls : list Z) (c : nat) : Z :=
  if (c + 2 <? length rolls)%nat
     && ((nth c rolls 0 =? PINS) || (nth c rolls 0 + nth (c + 1) rolls 0 =? PINS))
  then nth (c + 2) rolls 0
  else 0.

(** A frame as the factory builds it at position [k] from byte arguments. *)
Definition made_at (k : nat) (f : Frame) : Prop :=
  exists r1 r2 r3,
    is_u8 r1 /\ is_u8 r2 /\ is_u8 r3 /\ f = createFrame (Z.of_nat k) r1 r2 r3.

Definition segmented (frames : list Frame) : Prop :=
  forall k f, nth_error frames k = Some f -> made_at k f.

(** The invariant of the scoring loop after [n] frames. *)
Definition score_inv (n : nat) (st : ScoreState) : Prop :=
  0 <= totalScore st <= 1020 * Z.of_nat n
  /\ nondecreasing (scores st)
  /\ (forall x, In x (scores st) -> x <= totalScore st)
  /\ last (scores st) 0 = totalScore st.

(** A line of input that opens with a legal pin count. *)
Definition accepts (line : list token) : bool :=
  match line with
  | Num z :: _ => (0 <=? z) && (z <=? 10)
  | _ => false
  end.

(** How many lines of the input open with a legal pin count. *)
Definition supply (lines : list (list token)) : nat :=
  length (filter accepts lines).

(** A line that costs a prompt and an error message: it is not empty, and
    its first token is refused. *)
Definition refused (line : list token) : bool :=
  match line with
  | [] => false
  | _ => negb (accepts line)
  end.

(** [n] copies of a text. *)
Fixpoint times (n : nat) (s : String.string) : String.string :=
  match n with
  | O => String.EmptyString
  | S n' => s +++ times n' s
  end.

(** The rolls of a finished tenth frame: two, or three when the first is a
    10 or the first two make 10. *)
Inductive tenth_shape : list Z -> Prop :=
| tenth_two a b : a <> 10 -> a + b <> 10 -> tenth_shape [a; b]
| tenth_three a b c : a = 10 \/ a + b = 10 -> tenth_shape [a; b; c].

(** The rolls of a finished game from the frame that has [n] frames to go
    before the tenth: one roll for a strike, two otherwise. *)
Inductive game_shape : nat -> list Z -> Prop :=
| shape_tenth l : tenth_shape l -> game_shape 0 l
| shape_strike n l : game_shape n l -> game_shape (S n) (10 :: l)
| shape_open n a b l : a <> 10 -> game_shape n l -> game_shape (S n) (a :: b :: l).

(** The rolls a frame stands for. *)
Definition frame_rolls (f : Frame) : list Z :=
  match f with
  | NormalFrame _ | SpareFrame _ => [firstRoll f; secondRoll f]
  | StrikeFrame _ => [firstRoll f]
  | TenthFrame _ thirdRoll thirdRollAllowed =>
      [firstRoll f; secondRoll f] ++ (if thirdRollAllowed then [thirdRoll] else [])
  end.

(** The frame [processFrames] builds at position [k] when its cursor stands
    at roll [c]: rolls past the end read as 0, a strike takes no second roll,
    and only the tenth frame takes a third. *)
Definition frame_at (rolls : list Z) (k c : nat) : Frame :=
  createFrame (Z.of_nat k)
    (nth c rolls 0)
    (if (k <? 9)%nat && (nth c rolls 0 =? PINS) then 0 else nth (c + 1) rolls 0)
    (if (k =? 9)%nat then third_read rolls c else 0).

(** Every frame of the list holds the rolls found at the scoring cursor. *)
Definition reads_at_cursor (rolls : list Z) (frames : list Frame) : Prop :=
  forall k f,
    nth_error frames k = Some f ->
    (cursor (firstn k frames) < length rolls)%nat
    /\ f = frame_at rolls k (cursor (firstn k frames)).

(** What the frame at position [k], found at cursor [c], adds to the total:
    the three rolls of the tenth frame, or ten plus the next two rolls after a
    strike, ten plus the next roll after a spare, and the two rolls
    otherwise. *)
Definition contrib (rolls : list Z) (k c : nat) : Z :=
  if (k =? 9)%nat then nth c rolls 0 + nth (c + 1) rolls 0 + third_read rolls c
  else if nth c rolls 0 =? 10 then 10 + nth (c + 1) rolls 0 + nth (c + 2) rolls 0
  else if nth c rolls 0 + nth (c + 1) rolls 0 =? 10 then 10 + nth (c + 2) rolls 0
  else nth c rolls 0 + nth (c + 1) rolls 0.

(** The sum of what the first [j] frames add, each taken at its cursor. *)
Fixpoint running (rolls : list Z) (frames : list Frame) (j : nat) : Z :=
  match j with
  | O => 0
  | S j' => running rolls frames j' + contrib rolls j' (cursor (firstn j' frames))
  end.

(** Two runs of the scoring loop, the second on a longer roll sequence, after
    the same [j] frames. *)
Definition grows (j : nat) (st st' : ScoreState) : Prop :=
  rollIndex st = rollIndex st'
  /\ 0 <= totalScore st <= totalScore st'
  /\ totalScore st' <= 30 * Z.of_nat j
  /\ Forall2 Z.le (scores st) (scores st').

(** The bound the scoring loop keeps on legal rolls after [n] frames. *)
Definition bound_inv (n : nat) (st : ScoreState) : Prop :=
  length (scores st) = n
  /\ 0 <= totalScore st <= 30 * Z.of_nat n
  /\ (forall k s, nth_error (scores st) k = Some s ->
        0 <= s <= 30 * (Z.of_nat k + 1)).

(** * Proofs *)

(** Split a conjunction without unfolding what its parts are made of. *)
Ltac splits :=
  repeat match goal with
         | |- _ /\ _ => split
         end.

(** ** Integers and vectors *)

Lemma u8_small z : is_u8 z -> u8 z = z.
Proof. unfold is_u8, u8; intros; apply Z.mod_small; lia. Qed.

Lemma u8_range z : is_u8 (u8 z).
Proof. unfold is_u8, u8. pose proof (Z.mod_pos_bound z 256). lia. Qed.

Lemma u16_small z : 0 <= z < 65536 -> u16 z = z.
Proof. unfold u16; intros; apply Z.mod_small; lia. Qed.

Lemma u16_range z : 0 <= u16 z < 65536.
Proof. unfold u16. apply Z.mod_pos_bound. lia. Qed.

Lemma valid_is_u8 z : valid_roll z -> is_u8 z.
Proof. unfold valid_roll, is_u8; lia. Qed.

Lemma Forall_valid_u8 rolls : Forall valid_roll rolls -> Forall is_u8 rolls.
Proof. intros H; eapply Forall_impl; [| exact H]. exact valid_is_u8. Qed.

Lemma at_lt {A} (v : list A) (i : nat) (d : A) :
  (i < length v)%nat -> at_ v i = Ok (nth i v d).
Proof.
  intros H. unfold at_.
  destruct (nth_error v i) eqn:E.
  - now rewrite (nth_error_nth v i d E).
  - apply nth_error_None in E. lia.
Qed.

Lemma nth_Forall (P : Z -> Prop) (v : list Z) (i : nat) :
  P 0 -> Forall P v -> P (nth i v 0).
Proof.
  intros H0 HF. destruct (Nat.lt_ge_cases i (length v)) as [Hlt | Hge].
  - rewrite Forall_forall in HF. apply HF, nth_In, Hlt.
  - now rewrite nth_overflow.
Qed.

Lemma is_u8_0 : is_u8 0.
Proof. unfold is_u8; lia. Qed.

Lemma valid_roll_0 : valid_roll 0.
Proof. unfold valid_roll; lia. Qed.

Create HintDb bowling.
#[local] Hint Resolve is_u8_0 valid_roll_0 u8_range : bowling.

(** ** The bonus helpers never fault *)

Lemma spareBonus_nth rolls index :
  spareBonus rolls index = Ok (nth (index + 2) rolls 0).
Proof.
  unfold spareBonus. destruct (Nat.ltb_spec (index + 2) (length rolls)).
  - now apply at_lt.
  - now rewrite nth_overflow.
Qed.

Lemma strikeBonus_u8 rolls index :
  Forall is_u8 rolls ->
  strikeBonus rolls index =
    Ok (u8 (nth (index + 1) rolls 0 + nth (index + 2) rolls 0)).
Proof.
  intros HF. unfold strikeBonus.
  destruct (Nat.ltb_spec (index + 1) (length rolls)) as [H1 | H1].
  - rewrite (at_lt rolls _ 0 H1). cbn [bind].
    destruct (Nat.ltb_spec (index + 2) (length rolls)) as [H2 | H2].
    + now rewrite (at_lt rolls _ 0 H2).
    + rewrite (nth_overflow rolls 0 H2), Z.add_0_r, u8_small; [reflexivity |].
      apply nth_Forall; auto with bowling.
  - rewrite !nth_overflow by lia. reflexivity.
Qed.

Lemma strikeBonus_nth rolls index :
  Forall valid_roll rolls ->
  strikeBonus rolls index =
    Ok (nth (index + 1) rolls 0 + nth (index + 2) rolls 0).
Proof.
  intros HF. rewrite strikeBonus_u8 by now apply Forall_valid_u8.
  pose proof (nth_Forall valid_roll rolls (index + 1) valid_roll_0 HF) as A.
  pose proof (nth_Forall valid_roll rolls (index + 2) valid_roll_0 HF) as B.
  unfold valid_roll in *. rewrite u8_small; [reflexivity | unfold is_u8; lia].
Qed.

Lemma strikeBonus_total rolls index : exists b, strikeBonus rolls index = Ok b.
Proof.
  unfold strikeBonus.
  destruct (Nat.ltb_spec (index + 1) (length rolls)) as [H1 | H1]; [| eauto].
  rewrite (at_lt rolls _ 0 H1). cbn [bind].
  destruct (Nat.ltb_spec (index + 2) (length rolls)) as [H2 | H2]; [| eauto].
  rewrite (at_lt rolls _ 0 H2). cbn [bind]. eauto.
Qed.

Lemma frameBonus_total rolls i f ri : exists b, frameBonus rolls i f ri = Ok b.
Proof.
  unfold frameBonus. destruct (Z.of_nat i <? FRAMES - 1); [| eauto].
  destruct (isStrike f); [apply strikeBonus_total |].
  destruct (isSpare f); [rewrite spareBonus_nth |]; eauto.
Qed.

Lemma frameBonus_range rolls i f ri b :
  Forall is_u8 rolls -> frameBonus rolls i f ri = Ok b -> is_u8 b.
Proof.
  intros HF. unfold frameBonus.
  destruct (Z.of_nat i <? FRAMES - 1).
  - destruct (isStrike f).
    + rewrite strikeBonus_u8 by assumption. intros [= <-]. apply u8_range.
    + destruct (isSpare f).
      * rewrite spareBonus_nth. intros [= <-]. apply nth_Forall; auto with bowling.
      * intros [= <-]. apply is_u8_0.
  - intros [= <-]. apply is_u8_0.
Qed.

(** ** Segmentation *)

Lemma segmented_nil : segmented [].
Proof. intros k f H. destruct k; discriminate. Qed.

Lemma segmented_snoc frames f :
  segmented frames -> made_at (length frames) f -> segmented (frames ++ [f]).
Proof.
  intros Hs Hf k g Hk.
  destruct (Nat.lt_ge_cases k (length frames)) as [Hlt | Hge].
  - rewrite nth_error_app1 in Hk by assumption. now apply Hs.
  - rewrite nth_error_app2 in Hk by assumption.
    destruct (k - length frames)%nat as [| n] eqn:E.
    + injection Hk as <-. replace k with (length frames) by lia. exact Hf.
    + destruct n; discriminate.
Qed.

(** The second read of a loop iteration, and of the tenth-frame block. *)
Lemma second_read (c : bool) rolls i :
  exists r2 i2,
    (if c && (S i <? length rolls)%nat
     then r <- at_ rolls (S i) ;; Ok (r, S (S i))
     else Ok (0, S i)) = Ok (r2, i2)
    /\ (S i <= i2)%nat
    /\ ((S i <= length rolls)%nat -> (i2 <= length rolls)%nat)
    /\ (Forall is_u8 rolls -> is_u8 r2).
Proof.
  destruct c; cbn [andb].
  - destruct (Nat.ltb_spec (S i) (length rolls)) as [H | H].
    + rewrite (at_lt rolls _ 0 H). cbn [bind].
      exists (nth (S i) rolls 0), (S (S i)).
      splits; [reflexivity | lia | lia |].
      intros HF. apply nth_Forall; auto with bowling.
    + exists 0, (S i). splits; [reflexivity | lia | lia | auto with bowling].
  - exists 0, (S i). splits; [reflexivity | lia | lia | auto with bowling].
Qed.

Lemma framesLoop_spec budget : forall rolls frames i,
  (length frames <= 9)%nat ->
  (9 <= budget + length frames)%nat ->
  (length frames <= i)%nat ->
  (i <= length rolls)%nat ->
  exists frames' i',
    framesLoop budget rolls frames i = Ok (frames', i')
    /\ (length frames' <= 9)%nat
    /\ (length frames' <= i')%nat
    /\ (i' <= length rolls)%nat
    /\ ((i' < length rolls)%nat -> length frames' = 9%nat)
    /\ (Forall is_u8 rolls -> segmented frames -> segmented frames').
Proof.
  induction budget as [| b IH]; intros rolls frames i Hlen Hb Hi Hir.
  - assert (length frames = 9%nat) as E by lia.
    exists frames, i. cbn [framesLoop]. unfold size, FRAMES. rewrite E. cbn.
    splits; auto; lia.
  - cbn [framesLoop].
    destruct ((size frames <? FRAMES - 1) && (i <? length rolls)%nat) eqn:G.
    + apply andb_prop in G as [G1 G2].
      unfold size, FRAMES in G1. apply Z.ltb_lt in G1. apply Nat.ltb_lt in G2.
      rewrite (at_lt rolls i 0 G2). cbn [bind].
      destruct (second_read (negb (nth i rolls 0 =? PINS)) rolls i)
        as (r2 & i2 & E2 & Hi2 & Hi2r & Hr2).
      rewrite E2. cbn [bind].
      destruct (IH rolls
                  (frames ++ [createFrame (u8 (size frames)) (nth i rolls 0) r2 0]) i2)
        as (frames' & i' & E & P1 & P2 & P3 & P4 & P5);
        try (rewrite length_app; cbn [length]; lia); try lia.
      exists frames', i'. splits; auto.
      intros HF Hs. apply P5; [assumption |].
      apply segmented_snoc; [assumption |].
      exists (nth i rolls 0), r2, 0. splits.
      * apply nth_Forall; auto with bowling.
      * apply Hr2; assumption.
      * apply is_u8_0.
      * unfold size. rewrite u8_small; [reflexivity | unfold is_u8; lia].
    + exists frames, i. splits; auto.
      intros Hlt. apply andb_false_iff in G as [G | G].
      * unfold size, FRAMES in G. apply Z.ltb_ge in G. lia.
      * apply Nat.ltb_ge in G. lia.
Qed.

Lemma tenthBlock_spec rolls frames i :
  length frames = 9%nat \/ (length rolls <= i)%nat ->
  (length frames <= 9)%nat ->
  (length frames <= i)%nat ->
  (i <= length rolls)%nat ->
  exists frames',
    tenthBlock rolls frames i = Ok frames'
    /\ (length frames' <= 10)%nat
    /\ (length frames' <= length rolls)%nat
    /\ (Forall is_u8 rolls -> segmented frames -> segmented frames').
Proof.
  intros Hfull Hlen Hi Hir. unfold tenthBlock.
  destruct (Nat.ltb_spec i (length rolls)) as [H | H].
  - assert (length frames = 9%nat) as E9 by lia.
    rewrite (at_lt rolls i 0 H). cbn [bind].
    destruct (second_read true rolls i) as (r2 & i2 & E2 & Hi2 & Hi2r & Hr2).
    cbn [andb] in E2. rewrite E2. cbn [bind].
    set (c := (i2 <? length rolls)%nat && _).
    assert (exists r3 i3,
      (if c then r <- at_ rolls i2 ;; Ok (r, S i2) else Ok (0, i2)) = Ok (r3, i3)
      /\ (Forall is_u8 rolls -> is_u8 r3)) as (r3 & i3 & E3 & Hr3).
    { destruct c eqn:Ec.
      - subst c. apply andb_prop in Ec as [Ec _]. apply Nat.ltb_lt in Ec.
        rewrite (at_lt rolls i2 0 Ec). cbn [bind].
        eexists _, _. split; [reflexivity |].
        intros HF. apply nth_Forall; auto with bowling.
      - eexists _, _. split; [reflexivity |]. auto with bowling. }
    rewrite E3. cbn [bind].
    eexists. split; [reflexivity |].
    rewrite length_app. cbn [length].
    splits; try lia.
    intros HF Hs. apply segmented_snoc; [assumption |].
    exists (nth i rolls 0), r2, r3. splits.
    + apply nth_Forall; auto with bowling.
    + apply Hr2; assumption.
    + apply Hr3; assumption.
    + rewrite E9. reflexivity.
  - exists frames. splits; auto; lia.
Qed.

(** Segmentation always succeeds, and the frames it yields come from the
    factory, at most ten and at most one per roll. *)
Lemma segment_spec rolls :
  exists frames,
    segment rolls = Ok frames
    /\ (length frames <= 10)%nat
    /\ (length frames <= length rolls)%nat
    /\ (Forall is_u8 rolls -> segmented frames).
Proof.
  unfold segment.
  destruct (framesLoop_spec (Z.to_nat (FRAMES - 1)) rolls [] 0%nat)
    as (fs & i & E & P1 & P2 & P3 & P4 & P5); try (cbn; lia).
  rewrite E. cbn [bind].
  destruct (tenthBlock_spec rolls fs i) as (fs' & E' & Q1 & Q2 & Q3); try lia.
  exists fs'. splits; auto.
  intros HF. apply Q3; [assumption |]. apply P5; [assumption | apply segmented_nil].
Qed.

(** ** Frames built by the factory *)

Lemma createFrame_cases idx r1 r2 r3 :
  (idx = 9 /\ createFrame idx r1 r2 r3 = new_TenthFrame r1 r2 r3)
  \/ (idx <> 9 /\ r1 = 10 /\ createFrame idx r1 r2 r3 = new_StrikeFrame)
  \/ (idx <> 9 /\ r1 <> 10 /\ r1 + r2 = 10
      /\ createFrame idx r1 r2 r3 = new_SpareFrame r1)
  \/ (idx <> 9 /\ r1 <> 10 /\ r1 + r2 <> 10
      /\ createFrame idx r1 r2 r3 = new_NormalFrame r1 r2).
Proof.
  unfold createFrame, FRAMES, BASE_SCORE.
  destruct (Z.eqb_spec idx (10 - 1)) as [Hi | Hi]; [left; split; [lia | reflexivity] |].
  right. destruct (Z.eqb_spec r1 10) as [H1 | H1]; [left; splits; [lia | auto ..] |].
  right. destruct (Z.eqb_spec (r1 + r2) 10) as [H2 | H2].
  - left; splits; auto; lia.
  - right; splits; auto; lia.
Qed.

Lemma made_at_score k f : made_at k f -> 0 <= score f <= 765.
Proof.
  intros (r1 & r2 & r3 & H1 & H2 & H3 & ->). unfold is_u8 in *.
  destruct (createFrame_cases (Z.of_nat k) r1 r2 r3)
    as [[_ ->] | [(_ & _ & ->) | [(_ & _ & _ & ->) | (_ & _ & _ & ->)]]];
    cbn; unfold BASE_SCORE; try lia; rewrite u16_small; lia.
Qed.

Lemma made_at_tenth k f : made_at k f -> (variant_of f = Tenth <-> k = 9%nat).
Proof.
  intros (r1 & r2 & r3 & _ & _ & _ & ->).
  destruct (createFrame_cases (Z.of_nat k) r1 r2 r3)
    as [[Hk ->] | [(Hk & _ & ->) | [(Hk & _ & _ & ->) | (Hk & _ & _ & ->)]]];
    cbn; split; intros; try discriminate; try lia; reflexivity.
Qed.

Lemma segmented_Forall_score frames :
  segmented frames -> Forall (fun f => 0 <= score f <= 765) frames.
Proof.
  intros Hs. apply Forall_forall. intros f Hin.
  apply In_nth_error in Hin as [k Hk]. eapply made_at_score, Hs, Hk.
Qed.

(** ** Scoring *)

Lemma scoreStep_spec rolls i f st :
  exists b,
    frameBonus rolls i f (rollIndex st) = Ok b
    /\ scoreStep rolls i f st =
         Ok (mkScore (totalScore st + (score f + b))
                     (rollIndex st + (if isStrike f then 1 else 2))%nat
                     (scores st ++ [u16 (totalScore st + (score f + b))])).
Proof.
  destruct (frameBonus_total rolls i f (rollIndex st)) as [b Hb].
  exists b. split; [assumption |]. unfold scoreStep. now rewrite Hb.
Qed.

Lemma scoreLoop_app rolls fs1 : forall fs2 i st,
  scoreLoop rolls (fs1 ++ fs2) i st =
    (st' <- scoreLoop rolls fs1 i st ;;
     scoreLoop rolls fs2 (i + length fs1) st').
Proof.
  induction fs1 as [| f fs1 IH]; intros fs2 i st; cbn [scoreLoop app length bind].
  - now rewrite Nat.add_0_r.
  - destruct (scoreStep rolls i f st) as [st1 | e]; cbn [bind]; [| reflexivity].
    rewrite IH. now replace (S i + length fs1)%nat with (i + S (length fs1))%nat by lia.
Qed.

Lemma cursor_snoc frames f : cursor (frames ++ [f]) = advance (cursor frames) f.
Proof. unfold cursor. now rewrite fold_left_app. Qed.

Lemma scoreLoop_total rolls frames : forall i st,
  exists st',
    scoreLoop rolls frames i st = Ok st'
    /\ rollIndex st' = fold_left advance frames (rollIndex st)
    /\ length (scores st') = (length (scores st) + length frames)%nat.
Proof.
  induction frames as [| f fs IH]; intros i st; cbn [scoreLoop].
  - exists st. cbn. splits; auto.
  - destruct (scoreStep_spec rolls i f st) as (b & _ & ->). cbn [bind].
    destruct (IH (S i) (mkScore (totalScore st + (score f + b))
                                (rollIndex st + (if isStrike f then 1 else 2))%nat
                                (scores st ++ [u16 (totalScore st + (score f + b))])))
      as (st' & -> & Hr & Hl).
    exists st'. splits; [reflexivity | exact Hr |].
    rewrite Hl. cbn [scores length]. rewrite length_app. cbn [length]. lia.
Qed.

Lemma nondecreasing_snoc l x :
  nondecreasing l -> (forall y, In y l -> y <= x) -> nondecreasing (l ++ [x]).
Proof.
  intros Hl Hx k a b Ha Hb.
  destruct (Nat.lt_ge_cases (S k) (length l)) as [Hlt | Hge].
  - rewrite nth_error_app1 in Ha by lia. rewrite nth_error_app1 in Hb by lia.
    eapply Hl; eassumption.
  - assert (S k < length (l ++ [x]))%nat as Hk
        by (apply nth_error_Some; rewrite Hb; discriminate).
    rewrite length_app in Hk. cbn [length] in Hk.
    assert (S k = length l) as E by lia.
    rewrite nth_error_app1 in Ha by lia.
    rewrite nth_error_app2 in Hb by lia.
    replace (S k - length l)%nat with 0%nat in Hb by lia.
    injection Hb as <-. apply Hx. eapply nth_error_In, Ha.
Qed.

Lemma scoreStep_inv rolls i f st n :
  Forall is_u8 rolls ->
  0 <= score f <= 765 ->
  (n < 10)%nat ->
  score_inv n st ->
  exists st',
    scoreStep rolls i f st = Ok st' /\ score_inv (S n) st'.
Proof.
  intros HF Hf Hn (Ht & Hnd & Hle & Hlast).
  destruct (scoreStep_spec rolls i f st) as (b & Hb & ->).
  apply frameBonus_range in Hb; [| assumption]. unfold is_u8 in Hb.
  eexists. split; [reflexivity |].
  unfold score_inv. cbn [totalScore scores].
  rewrite u16_small by lia.
  splits.
  - lia.
  - lia.
  - apply nondecreasing_snoc; [assumption |].
    intros y Hy. specialize (Hle y Hy). lia.
  - intros x Hx. apply in_app_or in Hx as [Hx | [<- | []]]; [| lia].
    specialize (Hle x Hx). lia.
  - apply last_last.
Qed.

Lemma scoreLoop_inv rolls frames : forall i st n,
  Forall is_u8 rolls ->
  Forall (fun f => 0 <= score f <= 765) frames ->
  (n + length frames <= 10)%nat ->
  score_inv n st ->
  exists st',
    scoreLoop rolls frames i st = Ok st' /\ score_inv (n + length frames) st'.
Proof.
  induction frames as [| f fs IH]; intros i st n HF Hfs Hn Hinv; cbn [scoreLoop].
  - exists st. cbn [length]. rewrite Nat.add_0_r. auto.
  - inversion Hfs as [| ? ? Hf Hfs']; subst. cbn [length] in Hn.
    destruct (scoreStep_inv rolls i f st n HF Hf) as (st1 & -> & Hinv1);
      [lia | assumption |].
    cbn [bind].
    destruct (IH (S i) st1 (S n) HF Hfs') as (st' & -> & Hinv'); [lia | assumption |].
    exists st'. split; [reflexivity |].
    cbn [length]. now replace (n + S (length fs))%nat with (S n + length fs)%nat by lia.
Qed.

Lemma score_inv_init : score_inv 0 initScore.
Proof.
  unfold score_inv, initScore. cbn [totalScore scores last]. splits; try lia.
  - intros k a b H. destruct k; discriminate.
  - intros x [].
Qed.

(** [play] feeds the rolls in order before it segments and scores. *)
Lemma fold_roll rolls : forall g,
  fold_left (fun g r => roll r g) rolls g =
    mkGame (m_rolls g ++ rolls) (m_scores g) (m_frames g).
Proof.
  induction rolls as [| r rs IH]; intros g; cbn [fold_left].
  - rewrite app_nil_r. now destruct g.
  - rewrite IH. cbn. now rewrite <- app_assoc.
Qed.

Lemma play_unfold rolls :
  play rolls =
    (frames <- segment rolls ;;
     st <- scoreLoop rolls frames 0%nat initScore ;;
     Ok (totalScore st, mkGame rolls (scores st) frames)).
Proof.
  unfold play, processFrames, calculateScore. rewrite fold_roll. cbn.
  destruct (segment rolls); reflexivity.
Qed.

(** ** One iteration at a time *)

Lemma framesLoop_step budget rolls frames i a :
  (length frames < 9)%nat ->
  nth_error rolls i = Some a ->
  framesLoop (S budget) rolls frames i =
    if negb (a =? PINS) && (S i <? length rolls)%nat
    then b <- at_ rolls (S i) ;;
         framesLoop budget rolls
           (frames ++ [createFrame (Z.of_nat (length frames)) a b 0]) (S (S i))
    else framesLoop budget rolls
           (frames ++ [createFrame (Z.of_nat (length frames)) a 0 0]) (S i).
Proof.
  intros Hlen Ha.
  assert (i < length rolls)%nat as Hi by (apply nth_error_Some; rewrite Ha; discriminate).
  cbn [framesLoop]. unfold size, FRAMES.
  destruct (Z.ltb_spec (Z.of_nat (length frames)) (10 - 1)) as [_ | H]; [| lia].
  destruct (Nat.ltb_spec i (length rolls)) as [_ | H]; [| lia].
  cbn [andb]. unfold at_ at 1. rewrite Ha. cbn [bind].
  rewrite u8_small by (unfold is_u8; lia).
  destruct (negb (a =? PINS) && (S i <? length rolls)%nat); cbn [bind]; [| reflexivity].
  destruct (at_ rolls (S i)); reflexivity.
Qed.

Lemma framesLoop_pair budget rolls frames i a b :
  (length frames < 9)%nat ->
  nth_error rolls i = Some a ->
  nth_error rolls (S i) = Some b ->
  a <> 10 ->
  framesLoop (S budget) rolls frames i =
    framesLoop budget rolls
      (frames ++ [createFrame (Z.of_nat (length frames)) a b 0]) (S (S i)).
Proof.
  intros Hlen Ha Hb Hne.
  assert (S i < length rolls)%nat as Hi by (apply nth_error_Some; rewrite Hb; discriminate).
  rewrite (framesLoop_step budget rolls frames i a Hlen Ha). unfold PINS.
  destruct (Z.eqb_spec a 10) as [| _]; [contradiction |].
  destruct (Nat.ltb_spec (S i) (length rolls)) as [_ | H]; [| lia].
  cbn [negb andb]. unfold at_. rewrite Hb. reflexivity.
Qed.

Lemma framesLoop_lone budget rolls frames i a :
  (length frames < 9)%nat ->
  nth_error rolls i = Some a ->
  length rolls = S i ->
  framesLoop (S budget) rolls frames i =
    framesLoop budget rolls
      (frames ++ [createFrame (Z.of_nat (length frames)) a 0 0]) (S i).
Proof.
  intros Hlen Ha Hl.
  rewrite (framesLoop_step budget rolls frames i a Hlen Ha).
  destruct (Nat.ltb_spec (S i) (length rolls)) as [H | _]; [lia |].
  now rewrite andb_false_r.
Qed.

Lemma framesLoop_done budget rolls frames i :
  (9 <= length frames)%nat \/ (length rolls <= i)%nat ->
  framesLoop budget rolls frames i = Ok (frames, i).
Proof.
  intros H.
  assert ((size frames <? FRAMES - 1) && (i <? length rolls)%nat = false) as E.
  { apply andb_false_iff. unfold size, FRAMES. destruct H as [H | H].
    - left. apply Z.ltb_ge. lia.
    - right. apply Nat.ltb_ge. lia. }
  destruct budget; cbn [framesLoop]; now rewrite E.
Qed.

Lemma tenthBlock_two rolls frames i a b :
  nth_error rolls i = Some a ->
  nth_error rolls (S i) = Some b ->
  length rolls = S (S i) ->
  tenthBlock rolls frames i = Ok (frames ++ [new_TenthFrame a b 0]).
Proof.
  intros Ha Hb Hl. unfold tenthBlock, at_. rewrite Hl.
  destruct (Nat.ltb_spec i (S (S i))) as [_ | H]; [| lia].
  rewrite Ha. cbn [bind].
  destruct (Nat.ltb_spec (S i) (S (S i))) as [_ | H]; [| lia].
  rewrite Hb. cbn [bind].
  rewrite Nat.ltb_irrefl. reflexivity.
Qed.

(** ** The two cursors agree *)

Lemma createFrame_isStrike idx r1 r2 r3 :
  idx <> 9 -> isStrike (createFrame idx r1 r2 r3) = (r1 =? 10).
Proof.
  intros Hi.
  destruct (createFrame_cases idx r1 r2 r3)
    as [[? _] | [(_ & -> & ->) | [(_ & _ & _ & ->) | (_ & _ & _ & ->)]]];
    [contradiction | reflexivity ..].
Qed.

(** While rolls remain, the cursor of [processFrames] is where
    [calculateScore] will stand after the same frames. *)
Lemma framesLoop_cursor budget : forall rolls frames i frames' i',
  framesLoop budget rolls frames i = Ok (frames', i') ->
  ((i < length rolls)%nat -> i = cursor frames) ->
  ((i' < length rolls)%nat -> i' = cursor frames').
Proof.
  induction budget as [| b IH]; intros rolls frames i frames' i' E Hc.
  - cbn [framesLoop] in E.
    destruct ((size frames <? FRAMES - 1) && (i <? length rolls)%nat);
      [discriminate E | now injection E as <- <-].
  - destruct ((size frames <? FRAMES - 1) && (i <? length rolls)%nat) eqn:G.
    + apply andb_prop in G as [G1 G2].
      unfold size, FRAMES in G1. apply Z.ltb_lt in G1. apply Nat.ltb_lt in G2.
      pose proof (nth_error_nth' rolls 0 G2) as Ha.
      rewrite (framesLoop_step b rolls frames i _ ltac:(lia) Ha) in E.
      unfold PINS in E.
      destruct (Z.eqb_spec (nth i rolls 0) 10) as [H10 | H10]; cbn [negb andb] in E.
      * eapply IH; [exact E |]. intros _.
        rewrite cursor_snoc. unfold advance.
        rewrite createFrame_isStrike, H10 by lia. cbn. specialize (Hc G2). lia.
      * destruct (Nat.ltb_spec (S i) (length rolls)) as [H2 | H2].
        -- rewrite (at_lt rolls (S i) 0 H2) in E. cbn [bind] in E.
           eapply IH; [exact E |]. intros _.
           rewrite cursor_snoc. unfold advance. rewrite createFrame_isStrike by lia.
           destruct (Z.eqb_spec (nth i rolls 0) 10); [contradiction |].
           specialize (Hc G2). lia.
        -- eapply IH; [exact E |]. intros Hlt. lia.
    + cbn [framesLoop] in E. rewrite G in E. now injection E as <- <-.
Qed.

(** The frame the tenth-frame block appends when a roll remains at [i]. *)
Lemma tenthBlock_frame rolls frames i :
  (i < length rolls)%nat ->
  tenthBlock rolls frames i =
    Ok (frames ++
        [new_TenthFrame (nth i rolls 0) (nth (i + 1) rolls 0) (third_read rolls i)]).
Proof.
  intros Hi. unfold tenthBlock, third_read.
  replace (i + 1)%nat with (S i) by lia. replace (i + 2)%nat with (S (S i)) by lia.
  destruct (Nat.ltb_spec i (length rolls)) as [_ | H]; [| lia].
  rewrite (at_lt rolls i 0 Hi). cbn [bind].
  destruct (Nat.ltb_spec (S i) (length rolls)) as [H1 | H1].
  - rewrite (at_lt rolls (S i) 0 H1). cbn [bind].
    destruct (Nat.ltb_spec (S (S i)) (length rolls)) as [H2 | H2]; cbn [andb].
    + destruct ((nth i rolls 0 =? PINS)
                || (nth i rolls 0 + nth (S i) rolls 0 =? PINS)).
      * rewrite (at_lt rolls (S (S i)) 0 H2). reflexivity.
      * reflexivity.
    + reflexivity.
  - cbn [bind]. rewrite (nth_overflow rolls 0 H1).
    destruct (Nat.ltb_spec (S i) (length rolls)) as [H | _]; [lia |].
    destruct (Nat.ltb_spec (S (S i)) (length rolls)) as [H | _]; [lia |].
    reflexivity.
Qed.

(** The tenth frame holds the rolls at the scoring cursor. *)
Lemma segment_tenth rolls frames f :
  segment rolls = Ok frames ->
  nth_error frames 9 = Some f ->
  frames = firstn 9 frames ++ [f]
  /\ (cursor (firstn 9 frames) < length rolls)%nat
  /\ f = new_TenthFrame (nth (cursor (firstn 9 frames)) rolls 0)
                        (nth (cursor (firstn 9 frames) + 1) rolls 0)
                        (third_read rolls (cursor (firstn 9 frames))).
Proof.
  unfold segment. intros E Hf.
  destruct (framesLoop_spec (Z.to_nat (FRAMES - 1)) rolls [] 0%nat)
    as (fs & i & El & P1 & P2 & P3 & P4 & _); try (cbn; lia).
  rewrite El in E. cbn [bind] in E.
  pose proof (framesLoop_cursor _ _ _ _ _ _ El (fun _ => eq_refl)) as Hc.
  destruct (Nat.lt_ge_cases i (length rolls)) as [Hlt | Hge].
  - rewrite (tenthBlock_frame rolls fs i Hlt) in E. injection E as <-.
    specialize (P4 Hlt). specialize (Hc Hlt).
    rewrite nth_error_app2 in Hf by lia. rewrite P4 in Hf. cbn in Hf.
    injection Hf as <-.
    rewrite firstn_app, <- P4, Nat.sub_diag, firstn_all. cbn [firstn].
    rewrite app_nil_r, <- Hc. splits; [reflexivity | assumption | reflexivity].
  - unfold tenthBlock in E.
    destruct (Nat.ltb_spec i (length rolls)) as [H | _]; [lia |].
    injection E as <-.
    assert (9 < length fs)%nat by (apply nth_error_Some; rewrite Hf; discriminate).
    lia.
Qed.

Lemma createFrame_open idx a b r3 :
  idx <> 9 -> 0 <= a -> 0 <= b -> a + b < 10 ->
  createFrame idx a b r3 = new_NormalFrame a b.
Proof.
  intros Hi Ha Hb Hab.
  destruct (createFrame_cases idx a b r3)
    as [[? _] | [(_ & ? & _) | [(_ & _ & ? & _) | (_ & _ & _ & E)]]];
    try lia; exact E.
Qed.

Lemma frameBonus_last rolls i f ri :
  (9 <= i)%nat -> frameBonus rolls i f ri = Ok 0.
Proof.
  intros H. unfold frameBonus, FRAMES.
  destruct (Z.ltb_spec (Z.of_nat i) (10 - 1)); [lia | reflexivity].
Qed.

Lemma plain_open a b : 0 <= a -> 0 <= b -> a + b < 10 -> plain (new_NormalFrame a b).
Proof.
  intros Ha Hb Hab. unfold plain, isSpare, isStrike, firstRoll, secondRoll, BASE_SCORE.
  cbn [new_NormalFrame Frame_ctor base_of roll1 roll2 pins].
  destruct (Z.eqb_spec a 10); [lia |].
  destruct (Z.eqb_spec (a + b) 10); [lia |]. split; reflexivity.
Qed.

Lemma plain_open_any a b : a <> 10 -> a + b <> 10 -> plain (new_NormalFrame a b).
Proof.
  intros Ha Hab. unfold plain, isSpare, isStrike, firstRoll, secondRoll, BASE_SCORE.
  cbn [new_NormalFrame Frame_ctor base_of roll1 roll2 pins].
  destruct (Z.eqb_spec a 10); [contradiction |].
  destruct (Z.eqb_spec (a + b) 10); [contradiction |]. split; reflexivity.
Qed.

Lemma plain_open_tenth a b r3 :
  0 <= a -> 0 <= b -> a + b < 10 -> plain (new_TenthFrame a b r3).
Proof.
  intros Ha Hb Hab.
  unfold plain, isSpare, isStrike, firstRoll, secondRoll, BASE_SCORE, new_TenthFrame.
  cbn [Frame_ctor base_of roll1 roll2 pins].
  destruct (Z.eqb_spec a 10); [lia |].
  destruct (Z.eqb_spec (a + b) 10); [lia |]. split; reflexivity.
Qed.

Lemma scoreLoop_plain rolls frames : forall i st,
  Forall plain frames ->
  exists st',
    scoreLoop rolls frames i st = Ok st'
    /\ totalScore st' = totalScore st + sum_scores frames.
Proof.
  induction frames as [| f fs IH]; intros i st Hp; cbn [scoreLoop sum_scores fold_right].
  - exists st. split; [reflexivity | lia].
  - inversion Hp as [| ? ? [Hs Hsp] Hp']; subst.
    unfold scoreStep, frameBonus. rewrite Hs, Hsp.
    assert ((if Z.of_nat i <? FRAMES - 1 then Ok 0 else Ok 0) = Ok 0) as ->
        by (destruct (Z.of_nat i <? FRAMES - 1); reflexivity).
    cbn [bind].
    destruct (IH (S i) (mkScore (totalScore st + (score f + 0)) (rollIndex st + 2)%nat
                          (scores st ++ [u16 (totalScore st + (score f + 0))])) Hp')
      as (st' & -> & Ht).
    exists st'. split; [reflexivity |].
    rewrite Ht. cbn [totalScore]. fold (sum_scores fs). lia.
Qed.

Lemma scoreStep_last rolls i f st :
  (9 <= i)%nat ->
  scoreStep rolls i f st =
    Ok (mkScore (totalScore st + score f)
                (rollIndex st + (if isStrike f then 1 else 2))%nat
                (scores st ++ [u16 (totalScore st + score f)])).
Proof.
  intros H. unfold scoreStep. rewrite frameBonus_last by assumption.
  cbn [bind]. now rewrite Z.add_0_r.
Qed.

(** What the stored rolls of a factory-built spare or strike are. *)
Lemma factory_strike_spare_facts idx r1 r2 r3 :
  is_u8 r1 -> is_u8 r2 ->
  (variant_of (createFrame idx r1 r2 r3) = Spare ->
     idx <> 9
     /\ createFrame idx r1 r2 r3 = new_SpareFrame r1
     /\ isSpare (createFrame idx r1 r2 r3) = true)
  /\ (variant_of (createFrame idx r1 r2 r3) = Strike ->
     idx <> 9
     /\ createFrame idx r1 r2 r3 = new_StrikeFrame
     /\ isStrike (createFrame idx r1 r2 r3) = true).
Proof.
  unfold is_u8. intros Hr1 Hr2.
  destruct (createFrame_cases idx r1 r2 r3)
    as [[Hi ->] | [(Hi & H1 & ->) | [(Hi & H1 & H2 & ->) | (Hi & H1 & H2 & ->)]]];
    (split; [intros Hv | intros Hv]); try discriminate Hv.
  - splits; auto.
  - assert (u8 (PINS - r1) = 10 - r1) as E
        by (apply u8_small; unfold is_u8, PINS; lia).
    splits; auto.
    unfold isSpare, firstRoll, secondRoll, new_SpareFrame, Frame_ctor, base_of,
      BASE_SCORE.
    cbn [roll1 roll2 pins]. rewrite E.
    replace (r1 + (10 - r1)) with 10 by lia.
    destruct (Z.eqb_spec r1 10); [contradiction | reflexivity].
Qed.

(** Outside the legal pin counts the byte accumulator of [strikeBonus] wraps. *)
Remark strikeBonus_wraps_on_illegal_rolls : strikeBonus [10; 200; 100] 0 = Ok 44.
Proof. reflexivity. Qed.

(** * The claims *)

(** C1.  Twelve consecutive rolls of 10: segmentation and scoring give the
    cumulative scores 30, 60, ..., 300, each frame adding exactly 30, and the
    total is 300. *)
Theorem perfect_game_300 :
  exists g,
    play (repeat 10 12) = Ok (300, g)
    /\ m_scores g = [30; 60; 90; 120; 150; 180; 210; 240; 270; 300]
    /\ map variant_of (m_frames g) =
         [Strike; Strike; Strike; Strike; Strike; Strike; Strike; Strike; Strike; Tenth].
Proof.
  eexists. split; [vm_compute; reflexivity |]. split; reflexivity.
Qed.

(** C7.  The factory chooses the class by position first and roll values
    next: position nine (the tenth frame) always gives a [TenthFrame];
    elsewhere a first roll of 10 gives a strike, else two rolls summing to 10
    give a spare, else the frame is normal. *)
Theorem createFrame_precedence (frameIndex r1 r2 r3 : Z) :
  (frameIndex = FRAMES - 1 ->
     createFrame frameIndex r1 r2 r3 = new_TenthFrame r1 r2 r3
     /\ variant_of (createFrame frameIndex r1 r2 r3) = Tenth)
  /\ (frameIndex <> FRAMES - 1 -> r1 = BASE_SCORE ->
     createFrame frameIndex r1 r2 r3 = new_StrikeFrame
     /\ variant_of (createFrame frameIndex r1 r2 r3) = Strike)
  /\ (frameIndex <> FRAMES - 1 -> r1 <> BASE_SCORE -> r1 + r2 = BASE_SCORE ->
     createFrame frameIndex r1 r2 r3 = new_SpareFrame r1
     /\ variant_of (createFrame frameIndex r1 r2 r3) = Spare)
  /\ (frameIndex <> FRAMES - 1 -> r1 <> BASE_SCORE -> r1 + r2 <> BASE_SCORE ->
     createFrame frameIndex r1 r2 r3 = new_NormalFrame r1 r2
     /\ variant_of (createFrame frameIndex r1 r2 r3) = Normal).
Proof.
  unfold FRAMES, BASE_SCORE.
  destruct (createFrame_cases frameIndex r1 r2 r3)
    as [[Hi ->] | [(Hi & H1 & ->) | [(Hi & H1 & H2 & ->) | (Hi & H1 & H2 & ->)]]];
    splits; intros; try lia; split; reflexivity.
Qed.

(** C10.  A spare built by the factory keeps the first roll it was given and
    stores ten minus that roll as its second, whatever second roll the factory
    received; a strike stores (10, 0).  So the former satisfies [isSpare] and
    the latter [isStrike]. *)
Theorem factory_spare_strike_rolls (frameIndex r1 r2 r3 : Z) :
  is_u8 r1 -> is_u8 r2 ->
  (variant_of (createFrame frameIndex r1 r2 r3) = Spare ->
     createFrame frameIndex r1 r2 r3 = new_SpareFrame r1
     /\ firstRoll (createFrame frameIndex r1 r2 r3) = r1
     /\ secondRoll (createFrame frameIndex r1 r2 r3) = 10 - r1
     /\ isSpare (createFrame frameIndex r1 r2 r3) = true)
  /\ (variant_of (createFrame frameIndex r1 r2 r3) = Strike ->
     createFrame frameIndex r1 r2 r3 = new_StrikeFrame
     /\ firstRoll (createFrame frameIndex r1 r2 r3) = 10
     /\ secondRoll (createFrame frameIndex r1 r2 r3) = 0
     /\ isStrike (createFrame frameIndex r1 r2 r3) = true).
Proof.
  unfold is_u8. intros Hr1 Hr2.
  destruct (createFrame_cases frameIndex r1 r2 r3)
    as [[Hi ->] | [(Hi & H1 & ->) | [(Hi & H1 & H2 & ->) | (Hi & H1 & H2 & ->)]]];
    (split; [intros Hv | intros Hv]); try discriminate Hv.
  - splits; reflexivity.
  - assert (u8 (PINS - r1) = 10 - r1) as E
        by (apply u8_small; unfold is_u8, PINS; lia).
    unfold isSpare, firstRoll, secondRoll, new_SpareFrame, Frame_ctor, base_of,
      BASE_SCORE.
    cbn [roll1 roll2 pins]. rewrite E.
    splits; try reflexivity.
    replace (r1 + (10 - r1)) with 10 by lia.
    destruct (Z.eqb_spec r1 10); [contradiction | reflexivity].
Qed.

Lemma factory_spare_strike_rolls_witness :
  is_u8 7 /\ is_u8 3
  /\ createFrame 6 7 3 0 = new_SpareFrame 7
  /\ secondRoll (createFrame 6 7 3 0) = 10 - 7
  /\ isStrike (createFrame 4 10 0 0) = true.
Proof.
  assert (is_u8 7) as H7 by (unfold is_u8; lia).
  assert (is_u8 3) as H3 by (unfold is_u8; lia).
  assert (is_u8 10) as H10 by (unfold is_u8; lia).
  splits; try assumption.
  - apply (factory_spare_strike_rolls 6 7 3 0 H7 H3). reflexivity.
  - apply (factory_spare_strike_rolls 6 7 3 0 H7 H3). reflexivity.
  - apply (factory_spare_strike_rolls 4 10 0 0 H10 is_u8_0). reflexivity.
Defined.

(** C5, as the code has it.  The example sequence of [main] is segmented
    into ten frames, the ninth a strike and the tenth holding the rolls
    2, 8, 6; its cumulative scores end in the total 133. *)
Theorem main_example_board :
  exists g,
    play main_rolls = Ok (133, g)
    /\ length (m_frames g) = 10%nat
    /\ nth_error (m_frames g) 8 = Some new_StrikeFrame
    /\ nth_error (m_frames g) 9 = Some (new_TenthFrame 2 8 6)
    /\ m_scores g = [5; 14; 29; 49; 60; 61; 77; 97; 117; 133].
Proof.
  eexists. split; [vm_compute; reflexivity |]. splits; reflexivity.
Qed.

(** C5 as stated fails: the tenth frame of the example does not hold the
    rolls 10, 2, 8. *)
Lemma main_example_tenth_not_10_2_8 :
  ~ (exists frames f,
       segment main_rolls = Ok frames
       /\ length frames = 10%nat
       /\ nth_error frames 9 = Some f
       /\ (firstRoll f, secondRoll f, thirdRoll_of f) = (10, 2, 8)).
Proof.
  intros (frames & f & Hs & _ & Hf & Hr).
  vm_compute in Hs. injection Hs as <-.
  cbn in Hf. injection Hf as <-.
  vm_compute in Hr. discriminate Hr.
Qed.

(** C4, as the code has it.  A single roll below ten is segmented into one
    frame, a normal frame whose missing second roll is stored as 0, and the
    total is the roll itself. *)
Theorem single_roll_scored (r : Z) :
  0 <= r < 10 ->
  exists g,
    play [r] = Ok (r, g)
    /\ m_frames g = [new_NormalFrame r 0]
    /\ m_scores g = [r].
Proof.
  intros Hr. rewrite play_unfold.
  assert (segment [r] = Ok [new_NormalFrame r 0]) as ->.
  { unfold segment. change (Z.to_nat (FRAMES - 1)) with 9%nat.
    rewrite (framesLoop_lone 8 [r] [] 0 r) by (cbn; first [reflexivity | lia]).
    rewrite framesLoop_done by (right; cbn; lia).
    cbn [bind app length Z.of_nat tenthBlock Nat.ltb Nat.leb].
    now rewrite createFrame_open by lia. }
  cbn [bind scoreLoop]. unfold scoreStep, frameBonus.
  destruct (plain_open r 0) as [-> ->]; try lia.
  change (Z.of_nat 0 <? FRAMES - 1) with true.
  cbn [bind score new_NormalFrame Frame_ctor roll1 roll2 pins
       totalScore scores initScore app].
  rewrite ?Z.add_0_r, ?Z.add_0_l, !u16_small by lia.
  eexists. splits; reflexivity.
Qed.

Lemma single_roll_scored_witness :
  0 <= 5 < 10
  /\ exists g, play [5] = Ok (5, g)
               /\ m_frames g = [new_NormalFrame 5 0] /\ m_scores g = [5].
Proof.
  assert (0 <= 5 < 10) as H by lia.
  split; [exact H | exact (single_roll_scored 5 H)].
Defined.

(** C4 as stated fails: a lone roll of 5 yields one frame and a total of 5,
    not an empty frame list and a total of 0. *)
Lemma single_roll_not_dropped :
  ~ (exists g, play [5] = Ok (0, g) /\ length (m_frames g) = 0%nat).
Proof.
  intros (g & Hp & _). vm_compute in Hp. discriminate Hp.
Qed.

(** C9.  The board has one cumulative score per segmented frame; the
    cumulative scores never decrease, and the value returned by
    [calculateScore] is the last of them, or 0 when there is no frame. *)
Theorem scores_nondecreasing (rolls : list Z) :
  Forall is_u8 rolls ->
  exists total g,
    play rolls = Ok (total, g)
    /\ length (m_scores g) = length (m_frames g)
    /\ nondecreasing (m_scores g)
    /\ total = last (m_scores g) 0
    /\ (m_frames g = [] -> total = 0).
Proof.
  intros HF. rewrite play_unfold.
  destruct (segment_spec rolls) as (frames & -> & Hlen & _ & Hseg).
  cbn [bind].
  destruct (scoreLoop_inv rolls frames 0%nat initScore 0%nat HF)
    as (st & Hst & _ & Hnd & _ & Hlast).
  - apply segmented_Forall_score, Hseg, HF.
  - cbn. lia.
  - apply score_inv_init.
  - destruct (scoreLoop_total rolls frames 0%nat initScore) as (st0 & Est0 & _ & Hl).
    rewrite Hst in Est0. injection Est0 as <-.
    rewrite Hst. cbn [bind].
    exists (totalScore st), (mkGame rolls (scores st) frames).
    cbn [m_scores m_frames]. splits; auto.
    intros ->. cbn in Hst. injection Hst as <-. reflexivity.
Qed.

Lemma scores_nondecreasing_witness :
  Forall is_u8 [5; 5; 3]
  /\ exists total g,
       play [5; 5; 3] = Ok (total, g)
       /\ length (m_scores g) = length (m_frames g)
       /\ nondecreasing (m_scores g)
       /\ total = last (m_scores g) 0
       /\ (m_frames g = [] -> total = 0).
Proof.
  assert (Forall is_u8 [5; 5; 3]) as H
      by (repeat constructor; unfold is_u8; lia).
  split; [exact H | exact (scores_nondecreasing [5; 5; 3] H)].
Defined.

(** C8.  On validated rolls segmentation and scoring run to completion
    without a fault; the board has one cumulative entry per segmented frame,
    at most ten and at most one per roll, and a bonus lookup past the end of
    the rolls contributes 0. *)
Theorem incomplete_game_no_fault (rolls : list Z) :
  Forall valid_roll rolls ->
  (exists total g,
     play rolls = Ok (total, g)
     /\ m_rolls g = rolls
     /\ length (m_scores g) = length (m_frames g)
     /\ (length (m_frames g) <= 10)%nat
     /\ (length (m_frames g) <= length rolls)%nat)
  /\ (forall index, (length rolls <= index + 1)%nat ->
        strikeBonus rolls index = Ok 0)
  /\ (forall index, (index + 1 < length rolls <= index + 2)%nat ->
        strikeBonus rolls index = Ok (nth (index + 1) rolls 0))
  /\ (forall index, (length rolls <= index + 2)%nat ->
        spareBonus rolls index = Ok 0)
  /\ (forall i f index, exists b, frameBonus rolls i f index = Ok b).
Proof.
  intros HF. splits.
  - rewrite play_unfold.
    destruct (segment_spec rolls) as (frames & -> & Hlen & Hlr & _).
    cbn [bind].
    destruct (scoreLoop_total rolls frames 0%nat initScore) as (st & -> & _ & Hl).
    cbn [bind].
    exists (totalScore st), (mkGame rolls (scores st) frames).
    cbn [m_rolls m_scores m_frames]. splits; auto.
  - intros index H. rewrite strikeBonus_nth by assumption.
    now rewrite !nth_overflow by lia.
  - intros index H. rewrite strikeBonus_nth by assumption.
    rewrite (nth_overflow rolls 0 (n := index + 2)) by lia. now rewrite Z.add_0_r.
  - intros index H. rewrite spareBonus_nth. now rewrite nth_overflow by lia.
  - intros i f index. apply frameBonus_total.
Qed.

Lemma incomplete_game_no_fault_witness :
  Forall valid_roll [10; 10]
  /\ (exists total g,
        play [10; 10] = Ok (total, g)
        /\ m_rolls g = [10; 10]
        /\ length (m_scores g) = length (m_frames g)
        /\ (length (m_frames g) <= 10)%nat
        /\ (length (m_frames g) <= 2)%nat)
  /\ strikeBonus [10; 10] 1 = Ok 0.
Proof.
  assert (Forall valid_roll [10; 10]) as H
      by (repeat constructor; unfold valid_roll; lia).
  destruct (incomplete_game_no_fault [10; 10] H) as (P & Q & _).
  splits; [exact H | exact P | apply Q; cbn; lia].
Defined.



(** C3.  A [TenthFrame] only ever sits at position nine, where the scoring
    loop adds no bonus: it contributes roll1 + roll2 + roll3 to the total,
    also when it opens with a 10 or its first two rolls make 10.  Its rolls
    are those at the scoring cursor, and the third is 0 when the roll sequence
    has no roll there.  With the rolls 10, 4, 3 it contributes 17. *)
Theorem tenth_frame_contribution
  (rolls : list Z) (frames : list Frame) (k : nat) (f : Frame) :
  Forall is_u8 rolls ->
  segment rolls = Ok frames ->
  nth_error frames k = Some f ->
  variant_of f = Tenth ->
  k = 9%nat
  /\ exists st st',
       scoreLoop rolls (firstn k frames) 0%nat initScore = Ok st
       /\ frameBonus rolls k f (rollIndex st) = Ok 0
       /\ scoreStep rolls k f st = Ok st'
       /\ scoreLoop rolls frames 0%nat initScore = Ok st'
       /\ totalScore st' =
            totalScore st + (firstRoll f + secondRoll f + thirdRoll_of f)
       /\ firstRoll f = nth (rollIndex st) rolls 0
       /\ secondRoll f = nth (rollIndex st + 1) rolls 0
       /\ thirdRoll_of f = third_read rolls (rollIndex st)
       /\ ((length rolls <= rollIndex st + 2)%nat -> thirdRoll_of f = 0)
       /\ (firstRoll f = 10 -> secondRoll f = 4 -> thirdRoll_of f = 3 ->
             totalScore st' = totalScore st + 17).
Proof.
  intros HF Hseg Hf Hv.
  destruct (segment_spec rolls) as (frames' & E & Hlen & _ & Hs).
  rewrite Hseg in E. injection E as <-. specialize (Hs HF).
  assert (k = 9%nat) as -> by (apply (made_at_tenth k f (Hs k f Hf)); exact Hv).
  split; [reflexivity |].
  destruct (segment_tenth rolls frames f Hseg Hf) as (Hsplit & Hc & Ef).
  destruct (scoreLoop_total rolls (firstn 9 frames) 0%nat initScore)
    as (st & Est & Hri & _).
  change (fold_left advance (firstn 9 frames) (rollIndex initScore))
    with (cursor (firstn 9 frames)) in Hri.
  rewrite <- Hri in Ef, Hc.
  assert (thirdRoll_of f = third_read rolls (rollIndex st)) as H3
      by (rewrite Ef at 1; reflexivity).
  assert (is_u8 (third_read rolls (rollIndex st))) as Hr3.
  { unfold third_read. destruct (_ && _); [apply nth_Forall |]; auto with bowling. }
  assert (score f = firstRoll f + secondRoll f + thirdRoll_of f) as Hscore.
  { rewrite H3. rewrite Ef at 1 2 3.
    pose proof (nth_Forall is_u8 rolls (rollIndex st) is_u8_0 HF).
    pose proof (nth_Forall is_u8 rolls (rollIndex st + 1) is_u8_0 HF).
    unfold is_u8 in *.
    cbn [score new_TenthFrame firstRoll secondRoll base_of Frame_ctor roll1 roll2 pins].
    apply u16_small. lia. }
  assert (9 < length frames)%nat as H9
      by (apply nth_error_Some; rewrite Hf; discriminate).
  exists st. eexists. splits.
  - exact Est.
  - now apply frameBonus_last.
  - now apply scoreStep_last.
  - rewrite Hsplit at 1. rewrite scoreLoop_app, Est. cbn [bind scoreLoop].
    rewrite length_firstn, Nat.min_l by lia.
    rewrite scoreStep_last by lia. reflexivity.
  - cbn [totalScore]. now rewrite Hscore.
  - rewrite Ef at 1. reflexivity.
  - rewrite Ef at 1. reflexivity.
  - exact H3.
  - intros Hshort. rewrite H3. unfold third_read.
    destruct (Nat.ltb_spec (rollIndex st + 2) (length rolls)); [lia | reflexivity].
  - intros A B C. cbn [totalScore]. rewrite Hscore, A, B, C. reflexivity.
Qed.

Lemma tenth_frame_contribution_witness :
  Forall is_u8 (repeat 0 18 ++ [10; 4; 3])
  /\ exists frames st st',
       segment (repeat 0 18 ++ [10; 4; 3]) = Ok frames
       /\ nth_error frames 9 = Some (new_TenthFrame 10 4 3)
       /\ scoreLoop (repeat 0 18 ++ [10; 4; 3]) (firstn 9 frames) 0%nat initScore = Ok st
       /\ scoreLoop (repeat 0 18 ++ [10; 4; 3]) frames 0%nat initScore = Ok st'
       /\ totalScore st' = totalScore st + 17.
Proof.
  assert (Forall is_u8 (repeat 0 18 ++ [10; 4; 3])) as H
      by (repeat constructor; unfold is_u8; lia).
  split; [exact H |].
  eexists.
  destruct (tenth_frame_contribution (repeat 0 18 ++ [10; 4; 3]) _ 9
              (new_TenthFrame 10 4 3) H eq_refl eq_refl eq_refl)
    as (_ & st & st' & A & _ & _ & B & _ & _ & _ & _ & _ & C).
  exists st, st'. splits; [reflexivity | reflexivity | exact A | exact B |].
  apply C; reflexivity.
Defined.

(** C6.  Twenty rolls whose ten frame pairs each sum below ten score the sum
    of the twenty rolls. *)
Theorem open_frames_total (rolls : list Z) :
  length rolls = 20%nat ->
  Forall is_u8 rolls ->
  open_pairs rolls ->
  exists g,
    play rolls = Ok (sum_rolls rolls, g)
    /\ length (m_frames g) = 10%nat.
Proof.
  intros Hlen HF Hop.
  do 20 (destruct rolls as [| ? rolls]; [discriminate Hlen |]).
  destruct rolls; [clear Hlen | discriminate Hlen].
  repeat match goal with
         | H : Forall _ (_ :: _) |- _ => inversion H; clear H; subst
         end.
  unfold is_u8 in *. cbn [open_pairs] in Hop.
  repeat match goal with
         | H : _ /\ _ |- _ => destruct H
         end.
  rewrite play_unfold. unfold segment.
  change (Z.to_nat (FRAMES - 1)) with 9%nat.
  do 9 (erewrite framesLoop_pair;
        [ | cbn [length app]; lia | reflexivity | reflexivity | lia ];
        rewrite createFrame_open by (cbn [length app]; lia);
        cbn [app]).
  rewrite framesLoop_done by (left; cbn [length]; lia).
  cbn [bind].
  erewrite tenthBlock_two; [ | reflexivity | reflexivity | reflexivity ].
  cbn [bind app].
  match goal with
  | |- context [scoreLoop ?r ?fs 0%nat initScore] =>
      destruct (scoreLoop_plain r fs 0%nat initScore) as (st & -> & Ht)
  end.
  { repeat (apply Forall_cons; [first [apply plain_open | apply plain_open_tenth]; lia |]).
    apply Forall_nil. }
  cbn [bind]. eexists. split.
  - apply f_equal. apply f_equal2; [| reflexivity].
    rewrite Ht.
    cbn [totalScore initScore sum_scores sum_rolls fold_right score
         new_NormalFrame new_TenthFrame Frame_ctor roll1 roll2 pins].
    rewrite !u16_small by lia. lia.
  - reflexivity.
Qed.

Lemma open_frames_total_witness :
  length (repeat 4 20) = 20%nat
  /\ Forall is_u8 (repeat 4 20)
  /\ open_pairs (repeat 4 20)
  /\ exists g, play (repeat 4 20) = Ok (80, g) /\ length (m_frames g) = 10%nat.
Proof.
  assert (Forall is_u8 (repeat 4 20)) as H
      by (repeat constructor; unfold is_u8; lia).
  assert (open_pairs (repeat 4 20)) as O by (cbn; repeat split; lia).
  splits; [reflexivity | exact H | exact O |].
  exact (open_frames_total (repeat 4 20) eq_refl H O).
Defined.

(** * Further properties *)

(** ** A rule for the segmentation loop *)

(** An invariant kept by one iteration holds when the loop returns, and the
    loop returns only with nine frames or with no roll left. *)
Lemma framesLoop_rule (I : list Frame -> nat -> Prop) rolls :
  (forall frames i,
     I frames i -> (length frames < 9)%nat -> (i < length rolls)%nat ->
     if negb (nth i rolls 0 =? PINS) && (S i <? length rolls)%nat
     then I (frames ++ [createFrame (Z.of_nat (length frames))
                          (nth i rolls 0) (nth (S i) rolls 0) 0]) (S (S i))
     else I (frames ++ [createFrame (Z.of_nat (length frames))
                          (nth i rolls 0) 0 0]) (S i)) ->
  forall budget frames i frames' i',
    framesLoop budget rolls frames i = Ok (frames', i') ->
    I frames i ->
    I frames' i' /\ ((9 <= length frames')%nat \/ (length rolls <= i')%nat).
Proof.
  intros Hstep.
  assert (forall (frames : list Frame) i,
            (size frames <? FRAMES - 1) && (i <? length rolls)%nat = false ->
            (9 <= length frames)%nat \/ (length rolls <= i)%nat) as Hexit.
  { intros frames i G. apply andb_false_iff in G as [G | G].
    - left. unfold size, FRAMES in G. apply Z.ltb_ge in G. lia.
    - right. now apply Nat.ltb_ge in G. }
  induction budget as [| b IH]; intros frames i frames' i' E HI.
  - cbn [framesLoop] in E.
    destruct ((size frames <? FRAMES - 1) && (i <? length rolls)%nat) eqn:G;
      [discriminate E |].
    injection E as <- <-. split; [assumption | now apply Hexit].
  - destruct ((size frames <? FRAMES - 1) && (i <? length rolls)%nat) eqn:G.
    + apply andb_prop in G as [G1 G2].
      unfold size, FRAMES in G1. apply Z.ltb_lt in G1. apply Nat.ltb_lt in G2.
      assert (length frames < 9)%nat as Hlen by lia.
      pose proof (nth_error_nth' rolls 0 G2) as Ha.
      rewrite (framesLoop_step b rolls frames i _ Hlen Ha) in E.
      specialize (Hstep frames i HI Hlen G2).
      destruct (negb (nth i rolls 0 =? PINS) && (S i <? length rolls)%nat) eqn:C.
      * apply andb_prop in C as [_ C]. apply Nat.ltb_lt in C.
        rewrite (at_lt rolls (S i) 0 C) in E. cbn [bind] in E.
        eapply IH; eassumption.
      * eapply IH; eassumption.
    + cbn [framesLoop] in E. rewrite G in E. injection E as <- <-.
      split; [assumption | now apply Hexit].
Qed.

(** ** The frames hold the rolls at the scoring cursor *)

Lemma reads_at_cursor_nil rolls : reads_at_cursor rolls [].
Proof. intros k f H. destruct k; discriminate. Qed.

Lemma reads_at_cursor_snoc rolls frames f :
  reads_at_cursor rolls frames ->
  (cursor frames < length rolls)%nat ->
  f = frame_at rolls (length frames) (cursor frames) ->
  reads_at_cursor rolls (frames ++ [f]).
Proof.
  intros Hr Hc Hf k g Hk.
  destruct (Nat.lt_ge_cases k (length frames)) as [Hlt | Hge].
  - rewrite nth_error_app1 in Hk by assumption.
    rewrite firstn_app. replace (k - length frames)%nat with 0%nat by lia.
    cbn [firstn]. rewrite app_nil_r. now apply Hr.
  - rewrite nth_error_app2 in Hk by assumption.
    destruct (k - length frames)%nat as [| n] eqn:E; [| destruct n; discriminate].
    injection Hk as <-. assert (k = length frames) as -> by lia.
    rewrite firstn_app, Nat.sub_diag, firstn_all. cbn [firstn].
    rewrite app_nil_r. split; assumption.
Qed.

Lemma framesLoop_reads budget rolls frames' i' :
  framesLoop budget rolls [] 0%nat = Ok (frames', i') ->
  reads_at_cursor rolls frames'
  /\ ((i' < length rolls)%nat -> i' = cursor frames' /\ length frames' = 9%nat).
Proof.
  intros E.
  destruct (framesLoop_rule
              (fun frames i =>
                 reads_at_cursor rolls frames
                 /\ (length frames <= 9)%nat
                 /\ ((i < length rolls)%nat -> i = cursor frames))
              rolls) with (2 := E) as [(Hr & Hl & Hc) Hex].
  - clear E. intros frames i (Hr & _ & Hc) Hlen Hi. specialize (Hc Hi).
    assert (forall r2, isStrike (createFrame (Z.of_nat (length frames))
                                   (nth i rolls 0) r2 0)
                       = (nth i rolls 0 =? 10)) as Hs
        by (intros; apply createFrame_isStrike; lia).
    assert ((length frames <? 9)%nat = true) as Hk by (apply Nat.ltb_lt; lia).
    assert ((length frames =? 9)%nat = false) as Hk9 by (apply Nat.eqb_neq; lia).
    unfold PINS.
    destruct (Z.eqb_spec (nth i rolls 0) 10) as [H10 | H10]; cbn [negb andb].
    + splits.
      * apply reads_at_cursor_snoc; [assumption | lia |].
        unfold frame_at, PINS. rewrite Hk, Hk9, <- Hc, H10. reflexivity.
      * rewrite length_app. cbn [length]. lia.
      * intros _. rewrite cursor_snoc. unfold advance. rewrite Hs. lia.
    + assert (frame_at rolls (length frames) (cursor frames)
              = createFrame (Z.of_nat (length frames)) (nth i rolls 0)
                  (nth (S i) rolls 0) 0) as Hfa.
      { unfold frame_at, PINS. rewrite Hk, Hk9, <- Hc.
        destruct (Z.eqb_spec (nth i rolls 0) 10); [contradiction |].
        cbn [andb]. now replace (i + 1)%nat with (S i) by lia. }
      destruct (Nat.ltb_spec (S i) (length rolls)) as [H2 | H2].
      * splits.
        -- apply reads_at_cursor_snoc; [assumption | lia | now rewrite Hfa].
        -- rewrite length_app. cbn [length]. lia.
        -- intros _. rewrite cursor_snoc. unfold advance. rewrite Hs. lia.
      * splits.
        -- apply reads_at_cursor_snoc; [assumption | lia |].
           rewrite Hfa. now rewrite (nth_overflow rolls 0 H2).
        -- rewrite length_app. cbn [length]. lia.
        -- intros Hlt. lia.
  - splits; [apply reads_at_cursor_nil | cbn; lia | reflexivity].
  - split; [assumption |]. intros Hlt. split; [now apply Hc | lia].
Qed.

Lemma segment_reads rolls frames :
  segment rolls = Ok frames -> reads_at_cursor rolls frames.
Proof.
  unfold segment. intros E.
  destruct (framesLoop (Z.to_nat (FRAMES - 1)) rolls [] 0%nat)
    as [[fs i] | e] eqn:El; [| discriminate E].
  cbn [bind] in E.
  destruct (framesLoop_reads _ _ _ _ El) as (Hr & Hc).
  destruct (Nat.lt_ge_cases i (length rolls)) as [Hlt | Hge].
  - rewrite (tenthBlock_frame rolls fs i Hlt) in E. injection E as <-.
    destruct (Hc Hlt) as [Hi H9].
    apply reads_at_cursor_snoc; [assumption | lia |].
    unfold frame_at. rewrite H9, <- Hi. cbn [Nat.ltb Nat.leb Nat.eqb andb].
    reflexivity.
  - unfold tenthBlock in E.
    destruct (Nat.ltb_spec i (length rolls)) as [H | _]; [lia |].
    now injection E as <-.
Qed.

Lemma firstRoll_createFrame idx r1 r2 r3 :
  firstRoll (createFrame idx r1 r2 r3) = r1.
Proof.
  destruct (createFrame_cases idx r1 r2 r3)
    as [[_ ->] | [(_ & -> & ->) | [(_ & _ & _ & ->) | (_ & _ & _ & ->)]]];
    reflexivity.
Qed.



(** ** Bounds on legal rolls *)

Lemma third_read_valid rolls c : Forall valid_roll rolls -> valid_roll (third_read rolls c).
Proof.
  intros HF. unfold third_read. destruct (_ && _); [apply nth_Forall |]; auto with bowling.
Qed.

Lemma createFrame_bound rolls k r1 r2 r3 ri b :
  Forall valid_roll rolls ->
  valid_roll r1 -> valid_roll r2 -> valid_roll r3 ->
  frameBonus rolls k (createFrame (Z.of_nat k) r1 r2 r3) ri = Ok b ->
  0 <= score (createFrame (Z.of_nat k) r1 r2 r3) + b <= 30.
Proof.
  intros HF H1 H2 H3.
  pose proof (nth_Forall valid_roll rolls (ri + 1) valid_roll_0 HF) as B1.
  pose proof (nth_Forall valid_roll rolls (ri + 2) valid_roll_0 HF) as B2.
  unfold valid_roll in *. unfold frameBonus, FRAMES.
  destruct (createFrame_cases (Z.of_nat k) r1 r2 r3)
    as [[Hk ->] | [(Hk & E1 & ->) | [(Hk & E1 & E2 & ->) | (Hk & E1 & E2 & ->)]]].
  - destruct (Z.ltb_spec (Z.of_nat k) (10 - 1)); [lia |]. intros [= <-].
    cbn [score new_TenthFrame Frame_ctor roll1 roll2 pins]. rewrite u16_small; lia.
  - change (isStrike new_StrikeFrame) with true. cbn [score new_StrikeFrame].
    unfold BASE_SCORE.
    destruct (Z.of_nat k <? 10 - 1); [| intros [= <-]; lia].
    rewrite strikeBonus_nth by assumption. intros [= <-]. lia.
  - assert (isStrike (new_SpareFrame r1) = false) as ->
        by (apply Z.eqb_neq; cbn; exact E1).
    cbn [score new_SpareFrame]. unfold BASE_SCORE.
    destruct (Z.of_nat k <? 10 - 1); [| intros [= <-]; lia].
    destruct (isSpare (new_SpareFrame r1)); [| intros [= <-]; lia].
    rewrite spareBonus_nth. intros [= <-]. lia.
  - destruct (plain_open_any r1 r2 E1 E2) as [-> ->].
    cbn [score new_NormalFrame Frame_ctor roll1 roll2 pins].
    rewrite u16_small by lia.
    destruct (Z.of_nat k <? 10 - 1); intros [= <-]; lia.
Qed.

Lemma frame_at_bound rolls k c ri b :
  Forall valid_roll rolls ->
  frameBonus rolls k (frame_at rolls k c) ri = Ok b ->
  0 <= score (frame_at rolls k c) + b <= 30.
Proof.
  intros HF. unfold frame_at. apply createFrame_bound; [assumption | | |].
  - apply nth_Forall; auto with bowling.
  - destruct (_ && _); [| apply nth_Forall]; auto with bowling.
  - destruct (k =? 9)%nat; [apply third_read_valid |]; auto with bowling.
Qed.

Lemma bound_inv_init : bound_inv 0 initScore.
Proof.
  unfold bound_inv, initScore. cbn [scores totalScore length]. splits; try lia.
  intros k s H. destruct k; discriminate.
Qed.

Lemma scoreLoop_bound rolls frames : forall i st n,
  Forall valid_roll rolls ->
  (forall j f, nth_error frames j = Some f ->
     exists c, f = frame_at rolls (i + j) c) ->
  (n + length frames <= 10)%nat ->
  bound_inv n st ->
  exists st',
    scoreLoop rolls frames i st = Ok st' /\ bound_inv (n + length frames) st'.
Proof.
  induction frames as [| f fs IH]; intros i st n HF Hfs Hn (Hl & Ht & Hs);
    cbn [scoreLoop length].
  - exists st. rewrite Nat.add_0_r. unfold bound_inv. auto.
  - cbn [length] in Hn.
    destruct (Hfs 0%nat f eq_refl) as [c Ef]. rewrite Nat.add_0_r in Ef.
    destruct (scoreStep_spec rolls i f st) as (b & Hb & ->). cbn [bind].
    rewrite Ef in Hb. apply frame_at_bound in Hb; [| assumption].
    rewrite <- Ef in Hb.
    destruct (IH (S i)
                (mkScore (totalScore st + (score f + b))
                         (rollIndex st + (if isStrike f then 1 else 2))%nat
                         (scores st ++ [u16 (totalScore st + (score f + b))]))
                (S n) HF) as (st' & -> & Hinv).
    + intros j g Hj. destruct (Hfs (S j) g Hj) as [c' Eg].
      exists c'. now replace (S i + j)%nat with (i + S j)%nat by lia.
    + lia.
    + unfold bound_inv. cbn [scores totalScore].
      rewrite u16_small by lia. splits.
      * rewrite length_app. cbn [length]. lia.
      * lia.
      * lia.
      * intros k s Hk.
        destruct (Nat.lt_ge_cases k (length (scores st))) as [Hlt | Hge].
        -- rewrite nth_error_app1 in Hk by assumption. now apply Hs.
        -- rewrite nth_error_app2 in Hk by assumption.
           destruct (k - length (scores st))%nat as [| m] eqn:E;
             [| destruct m; discriminate].
           injection Hk as <-. lia.
    + exists st'. split; [reflexivity |].
      now replace (n + S (length fs))%nat with (S n + length fs)%nat by lia.
Qed.

(** ** How many frames *)


(** ** Text *)

Lemma append_nil_r s : s +++ String.EmptyString = s.
Proof. induction s as [| a s IH]; cbn; [reflexivity | now rewrite IH]. Qed.

Lemma append_assoc s t u : (s +++ t) +++ u = s +++ (t +++ u).
Proof. induction s as [| a s IH]; cbn; [reflexivity | now rewrite IH]. Qed.

Lemma length_append s t :
  String.length (s +++ t) = (String.length s + String.length t)%nat.
Proof. induction s as [| a s IH]; cbn; [reflexivity | now rewrite IH]. Qed.

(** ** Reading a roll *)

Lemma accepts_iff z more :
  accepts (Num z :: more) = negb ((z <? 0) || (z >? PINS)).
Proof.
  unfold accepts, PINS.
  destruct (Z.leb_spec 0 z), (Z.leb_spec z 10), (Z.ltb_spec z 0), (Z.gtb_spec z 10);
    cbn; try reflexivity; lia.
Qed.

Lemma inputLoop_spec prompt lines : forall out err,
  match inputLoop prompt lines out err with
  | Ok (v, con') =>
      valid_roll v
      /\ exists skipped more rest,
           lines = skipped ++ (Num v :: more) :: rest
           /\ Forall (fun l => accepts l = false) skipped
           /\ cin con' = more :: rest
           /\ cout con' = out +++ times (S (length (filter refused skipped))) prompt
           /\ cerr con' = err +++ times (length (filter refused skipped)) invalid_input
  | Fault e => e = LoopBudget /\ Forall (fun l => accepts l = false) lines
  end.
Proof.
  induction lines as [| line rest IH]; intros out err; cbn [inputLoop].
  - split; [reflexivity | constructor].
  - assert (forall out' err',
              accepts line = false -> refused line = true ->
              out' = out +++ prompt -> err' = err +++ invalid_input ->
              match inputLoop prompt rest out' err' with
              | Ok (v, con') =>
                  valid_roll v
                  /\ exists skipped more rest0,
                       line :: rest = skipped ++ (Num v :: more) :: rest0
                       /\ Forall (fun l => accepts l = false) skipped
                       /\ cin con' = more :: rest0
                       /\ cout con' =
                            out +++ times (S (length (filter refused skipped))) prompt
                       /\ cerr con' =
                            err +++ times (length (filter refused skipped)) invalid_input
              | Fault e =>
                  e = LoopBudget /\ Forall (fun l => accepts l = false) (line :: rest)
              end) as Hrefuse.
    { intros out' err' Ha Hr -> ->. specialize (IH (out +++ prompt) (err +++ invalid_input)).
      destruct (inputLoop prompt rest (out +++ prompt) (err +++ invalid_input))
        as [[v con'] | e].
      - destruct IH as (Hv & skipped & more & rest0 & -> & Hsk & Hin & Hout & Herr).
        split; [assumption |].
        exists (line :: skipped), more, rest0. cbn [filter]. rewrite Hr. cbn [length].
        splits; [reflexivity | now constructor | assumption | |].
        + rewrite Hout, append_assoc. reflexivity.
        + rewrite Herr, append_assoc. reflexivity.
      - destruct IH as [-> Hall]. split; [reflexivity | now constructor]. }
    destruct line as [| [z |] more].
    + specialize (IH out err).
      destruct (inputLoop prompt rest out err) as [[v con'] | e].
      * destruct IH as (Hv & skipped & more & rest0 & -> & Hsk & Hin & Hout & Herr).
        split; [assumption |].
        exists ([] :: skipped), more, rest0. cbn [filter refused].
        splits; [reflexivity | now constructor | assumption ..].
      * destruct IH as [-> Hall]. split; [reflexivity | now constructor].
    + pose proof (accepts_iff z more) as Hacc.
      destruct ((z <? 0) || (z >? PINS)) eqn:Hbad; cbn [negb] in Hacc.
      * apply Hrefuse; [assumption | | reflexivity | reflexivity].
        unfold refused. now rewrite Hacc.
      * apply orb_false_iff in Hbad as [H0 H10].
        apply Z.ltb_ge in H0. unfold PINS in H10.
        assert (z <= 10) as H10' by (destruct (Z.gtb_spec z 10); [discriminate | lia]).
        rewrite u8_small by (unfold is_u8; lia).
        split; [unfold valid_roll; lia |].
        exists [], more, rest. cbn [filter length times app cin cout cerr].
        rewrite !append_nil_r. splits; auto.
    + apply Hrefuse; reflexivity.
Qed.

Lemma getValidatedInput_spec_aux (prompt : String.string) (con : Console) :
  match getValidatedInput prompt con with
  | Ok (v, con') =>
      valid_roll v
      /\ exists skipped more rest,
           cin con = skipped ++ (Num v :: more) :: rest
           /\ Forall (fun l => accepts l = false) skipped
           /\ cin con' = more :: rest
           /\ cout con' =
                cout con +++ times (S (length (filter refused skipped))) prompt
           /\ cerr con' =
                cerr con +++ times (length (filter refused skipped)) invalid_input
  | Fault e => e = LoopBudget /\ Forall (fun l => accepts l = false) (cin con)
  end.
Proof. unfold getValidatedInput. apply inputLoop_spec. Qed.

(** X4.  [getValidatedInput] returns the first token of the first line that
    opens with an integer between 0 and 10, and never another value.  Every
    line before it is dropped whole, the rest of its own line stays unread,
    and each dropped line that was not empty costs one more prompt and one
    error message.  When no line opens with a legal pin count it never
    returns. *)
Theorem getValidatedInput_first_legal (prompt : String.string) (con : Console) :
  match getValidatedInput prompt con with
  | Ok (v, con') =>
      valid_roll v
      /\ exists skipped more rest,
           cin con = skipped ++ (Num v :: more) :: rest
           /\ Forall (fun l => accepts l = false) skipped
           /\ cin con' = more :: rest
           /\ cout con' =
                cout con +++ times (S (length (filter refused skipped))) prompt
           /\ cerr con' =
                cerr con +++ times (length (filter refused skipped)) invalid_input
  | Fault e => e = LoopBudget /\ Forall (fun l => accepts l = false) (cin con)
  end.
Proof. apply getValidatedInput_spec_aux. Qed.

Lemma supply_app l1 l2 : supply (l1 ++ l2) = (supply l1 + supply l2)%nat.
Proof. unfold supply. now rewrite filter_app, length_app. Qed.

Lemma supply_none l : Forall (fun x => accepts x = false) l -> supply l = 0%nat.
Proof.
  unfold supply. induction 1 as [| x l Hx _ IH]; cbn [filter]; [reflexivity |].
  now rewrite Hx.
Qed.

Lemma supply_cons_le line rest : (supply rest <= supply (line :: rest))%nat.
Proof. unfold supply. cbn [filter]. destruct (accepts line); cbn [length]; lia. Qed.

Lemma supply_cons_ge line rest : (supply (line :: rest) <= S (supply rest))%nat.
Proof. unfold supply. cbn [filter]. destruct (accepts line); cbn [length]; lia. Qed.

Lemma getValidatedInput_inv prompt con v con' :
  getValidatedInput prompt con = Ok (v, con') ->
  valid_roll v /\ (supply (cin con) <= S (supply (cin con')))%nat.
Proof.
  intros E. pose proof (getValidatedInput_spec_aux prompt con) as H.
  rewrite E in H. destruct H as (Hv & skipped & more & rest & Hin & Hsk & Hin' & _).
  split; [assumption |].
  rewrite Hin, Hin', supply_app, (supply_none skipped Hsk).
  pose proof (supply_cons_le more rest).
  pose proof (supply_cons_ge (Num v :: more) rest). lia.
Qed.

Lemma getValidatedInput_total prompt con :
  (0 < supply (cin con))%nat ->
  exists v con', getValidatedInput prompt con = Ok (v, con').
Proof.
  intros Hs. pose proof (getValidatedInput_spec_aux prompt con) as H.
  destruct (getValidatedInput prompt con) as [[v con'] | e]; [eauto |].
  destruct H as [_ Hall]. rewrite (supply_none _ Hall) in Hs. lia.
Qed.

(** ** A whole game typed in *)

Lemma userLoop_shape budget : forall frameCount game con g' con',
  0 <= frameCount <= 9 ->
  userLoop budget frameCount game con = Ok (g', con') ->
  exists l,
    m_rolls g' = m_rolls game ++ l
    /\ game_shape (Z.to_nat (9 - frameCount)) l
    /\ Forall valid_roll l
    /\ m_scores g' = m_scores game
    /\ m_frames g' = m_frames game.
Proof.
  induction budget as [| b IH]; intros fc game con g' con' Hfc E;
    cbn [userLoop] in E; unfold FRAMES in E;
    destruct (Z.ltb_spec fc 10) as [_ | ?]; try lia; [discriminate E |].
  set (con1 := put _ con) in E.
  destruct (getValidatedInput "Enter Roll 1: "%string con1) as [[r1 c1] | e] eqn:G1;
    [| discriminate E].
  apply getValidatedInput_inv in G1 as [V1 _]. cbn [bind] in E.
  destruct (Z.eqb_spec fc (10 - 1)) as [H9 | H9].
  - replace (Z.to_nat (9 - fc)) with 0%nat by lia.
    match type of E with
    | context [getValidatedInput ?p c1] =>
        destruct (getValidatedInput p c1) as [[r2 c2] | e] eqn:G2; [| discriminate E]
    end.
    apply getValidatedInput_inv in G2 as [V2 _]. cbn [bind] in E.
    destruct ((r1 =? PINS) || (r1 + r2 =? PINS)) eqn:C.
    + destruct (getValidatedInput "Enter Extra Roll: "%string c2) as [[r3 c3] | e] eqn:G3;
        [| discriminate E].
      apply getValidatedInput_inv in G3 as [V3 _]. cbn [bind] in E.
      injection E as <- <-. exists [r1; r2; r3]. cbn [roll m_rolls m_scores m_frames].
      rewrite <- !app_assoc.
      splits; [reflexivity | | repeat (apply Forall_cons; [assumption |]); first [apply Forall_nil | assumption] | reflexivity ..].
      apply shape_tenth, tenth_three. unfold PINS in C.
      apply orb_prop in C as [C | C]; apply Z.eqb_eq in C; auto.
    + injection E as <- <-. exists [r1; r2]. cbn [roll m_rolls m_scores m_frames].
      rewrite <- !app_assoc.
      splits; [reflexivity | | repeat (apply Forall_cons; [assumption |]); first [apply Forall_nil | assumption] | reflexivity ..].
      unfold PINS in C. apply orb_false_iff in C as [C1 C2].
      apply Z.eqb_neq in C1, C2. now apply shape_tenth, tenth_two.
  - assert (u8 (fc + 1) = fc + 1) as Eu by (apply u8_small; unfold is_u8; lia).
    rewrite Eu in E.
    assert (Z.to_nat (9 - fc) = S (Z.to_nat (9 - (fc + 1)))) as -> by lia.
    unfold PINS in E. destruct (Z.eqb_spec r1 10) as [H10 | H10].
    + destruct (IH (fc + 1) _ _ _ _ ltac:(lia) E) as (l & Hl & Hsh & Hv & Hsc & Hfr).
      exists (r1 :: l). cbn [roll m_rolls m_scores m_frames] in *.
      rewrite Hl, <- app_assoc.
      splits; [reflexivity | | repeat (apply Forall_cons; [assumption |]); first [apply Forall_nil | assumption] | assumption ..].
      rewrite H10. now apply shape_strike.
    + destruct (getValidatedInput "Enter Roll 2: "%string c1) as [[r2 c2] | e] eqn:G2;
        [| discriminate E].
      apply getValidatedInput_inv in G2 as [V2 _]. cbn [bind] in E.
      destruct (IH (fc + 1) _ _ _ _ ltac:(lia) E) as (l & Hl & Hsh & Hv & Hsc & Hfr).
      exists (r1 :: r2 :: l). cbn [roll m_rolls m_scores m_frames] in *.
      rewrite Hl, <- !app_assoc.
      splits; [reflexivity | | repeat (apply Forall_cons; [assumption |]); first [apply Forall_nil | assumption] | assumption ..].
      now apply shape_open.
Qed.

Lemma userLoop_total budget : forall frameCount game con,
  0 <= frameCount <= 9 ->
  (Z.to_nat (10 - frameCount) <= budget)%nat ->
  (2 * Z.to_nat (9 - frameCount) + 3 <= supply (cin con))%nat ->
  exists g' con', userLoop budget frameCount game con = Ok (g', con').
Proof.
  induction budget as [| b IH]; intros fc game con Hfc Hb Hs; [lia |].
  cbn [userLoop]. unfold FRAMES.
  destruct (Z.ltb_spec fc 10) as [_ | ?]; [| lia].
  set (con1 := put _ con).
  assert (cin con1 = cin con) as Hc1 by reflexivity.
  destruct (getValidatedInput_total "Enter Roll 1: "%string con1) as (r1 & c1 & G1);
    [rewrite Hc1; lia |].
  rewrite G1. cbn [bind].
  apply getValidatedInput_inv in G1 as [_ S1]. rewrite Hc1 in S1.
  destruct (Z.eqb_spec fc (10 - 1)) as [H9 | H9].
  - match goal with
    | |- context [getValidatedInput ?p c1] =>
        destruct (getValidatedInput_total p c1) as (r2 & c2 & G2); [lia |];
        rewrite G2
    end.
    cbn [bind]. apply getValidatedInput_inv in G2 as [_ S2].
    destruct ((r1 =? PINS) || (r1 + r2 =? PINS)); [| eauto].
    destruct (getValidatedInput_total "Enter Extra Roll: "%string c2) as (r3 & c3 & G3);
      [lia |].
    rewrite G3. cbn [bind]. eauto.
  - assert (u8 (fc + 1) = fc + 1) as Eu by (apply u8_small; unfold is_u8; lia).
    rewrite Eu.
    assert (Z.to_nat (9 - fc) = S (Z.to_nat (9 - (fc + 1)))) as En by lia.
    destruct (r1 =? PINS).
    + apply IH; lia.
    + destruct (getValidatedInput_total "Enter Roll 2: "%string c1) as (r2 & c2 & G2);
        [lia |].
      rewrite G2. cbn [bind]. apply getValidatedInput_inv in G2 as [_ S2].
      apply IH; lia.
Qed.

(** ** Segmenting and scoring a finished game *)

Lemma game_shape_length n l :
  game_shape n l -> (n + 2 <= length l <= 2 * n + 3)%nat.
Proof.
  induction 1 as [l [a b _ _ | a b c _] | n l _ IH | n a b l _ _ IH];
    cbn [length]; lia.
Qed.

Lemma at_app {A} (v w : list A) i : (i < length v)%nat -> at_ (v ++ w) i = at_ v i.
Proof. intros H. unfold at_. now rewrite nth_error_app1. Qed.

Lemma frameBonus_app rolls post k f ri :
  (ri + 2 < length rolls)%nat ->
  frameBonus (rolls ++ post) k f ri = frameBonus rolls k f ri.
Proof.
  intros H. unfold frameBonus, strikeBonus, spareBonus. rewrite length_app.
  destruct (Nat.ltb_spec (ri + 1) (length rolls + length post)); [| lia].
  destruct (Nat.ltb_spec (ri + 2) (length rolls + length post)); [| lia].
  destruct (Nat.ltb_spec (ri + 1) (length rolls)); [| lia].
  destruct (Nat.ltb_spec (ri + 2) (length rolls)); [| lia].
  now rewrite !at_app by lia.
Qed.

Lemma scoreStep_app rolls post k f st :
  (rollIndex st + 2 < length rolls)%nat \/ (9 <= k)%nat ->
  scoreStep (rolls ++ post) k f st = scoreStep rolls k f st.
Proof.
  intros [H | H].
  - unfold scoreStep. now rewrite frameBonus_app.
  - now rewrite !scoreStep_last.
Qed.

Lemma nth_error_mid {A} (pre : list A) x rest :
  nth_error (pre ++ x :: rest) (length pre) = Some x.
Proof. rewrite nth_error_app2, Nat.sub_diag by lia. reflexivity. Qed.

Lemma nth_error_mid2 {A} (pre : list A) x y rest :
  nth_error (pre ++ x :: y :: rest) (S (length pre)) = Some y.
Proof.
  rewrite nth_error_app2 by lia.
  now replace (S (length pre) - length pre)%nat with 1%nat by lia.
Qed.

Lemma frame_rolls_createFrame k a b :
  (k < 9)%nat -> a <> 10 -> is_u8 b ->
  frame_rolls (createFrame (Z.of_nat k) a b 0) = [a; b].
Proof.
  intros Hk Ha Hb. unfold is_u8 in Hb.
  destruct (createFrame_cases (Z.of_nat k) a b 0)
    as [[? _] | [(_ & ? & _) | [(_ & _ & Hs & ->) | (_ & _ & _ & ->)]]];
    [lia | contradiction | | reflexivity].
  unfold frame_rolls, firstRoll, secondRoll, new_SpareFrame, Frame_ctor, base_of, PINS.
  cbn [roll1 roll2 pins]. rewrite u8_small; [f_equal; f_equal; lia | unfold is_u8; lia].
Qed.

Lemma tenth_shape_run l :
  tenth_shape l ->
  exists f,
    frame_rolls f = l
    /\ forall pre post frames,
         tenthBlock (pre ++ l ++ post) frames (length pre) = Ok (frames ++ [f]).
Proof.
  intros [a b Ha Hab | a b c Hc].
  - exists (new_TenthFrame a b 0). split.
    + unfold new_TenthFrame, isStrike_pins, isSpare, firstRoll, secondRoll, PINS, BASE_SCORE.
      cbn [frame_rolls base_of Frame_ctor roll1 roll2 pins].
      destruct (Z.eqb_spec a 10); [contradiction |].
      destruct (Z.eqb_spec (a + b) 10); [contradiction | reflexivity].
    + intros pre post frames. rewrite tenthBlock_frame
        by (rewrite !length_app; cbn [length]; lia).
      cbn [app].
      unfold third_read, PINS.
      rewrite (nth_error_nth _ _ 0 (nth_error_mid pre a (b :: post))).
      replace (length pre + 1)%nat with (S (length pre)) by lia.
      rewrite (nth_error_nth _ _ 0 (nth_error_mid2 pre a b post)).
      destruct (Z.eqb_spec a 10); [contradiction |].
      destruct (Z.eqb_spec (a + b) 10); [contradiction |].
      now rewrite andb_false_r.
  - exists (new_TenthFrame a b c). split.
    + unfold new_TenthFrame, isStrike_pins, isSpare, firstRoll, secondRoll, PINS, BASE_SCORE.
      cbn [frame_rolls base_of Frame_ctor roll1 roll2 pins].
      destruct (Z.eqb_spec a 10); [reflexivity |].
      destruct (Z.eqb_spec (a + b) 10); [reflexivity | lia].
    + intros pre post frames. rewrite tenthBlock_frame
        by (rewrite !length_app; cbn [length]; lia).
      cbn [app].
      unfold third_read, PINS.
      rewrite (nth_error_nth _ _ 0 (nth_error_mid pre a (b :: c :: post))).
      replace (length pre + 1)%nat with (S (length pre)) by lia.
      rewrite (nth_error_nth _ _ 0 (nth_error_mid2 pre a b (c :: post))).
      assert (nth (length pre + 2) (pre ++ a :: b :: c :: post) 0 = c) as ->.
      { rewrite app_nth2 by lia.
        now replace (length pre + 2 - length pre)%nat with 2%nat by lia. }
      destruct (Nat.ltb_spec (length pre + 2) (length (pre ++ a :: b :: c :: post)))
        as [_ | H]; [| rewrite !length_app in H; cbn [length] in H; lia].
      assert ((a =? 10) || (a + b =? 10) = true) as ->
          by (apply orb_true_iff; destruct Hc; [left | right]; now apply Z.eqb_eq).
      reflexivity.
Qed.

(** A finished game is segmented into the frames its rolls spell, whatever
    rolls follow it, and is scored without looking at them. *)
Lemma shape_run n l :
  game_shape n l ->
  Forall is_u8 l ->
  (n <= 9)%nat ->
  exists fs,
    length fs = S n
    /\ concat (map frame_rolls fs) = l
    /\ (forall budget pre post frames,
          length frames = (9 - n)%nat -> (n <= budget)%nat ->
          (' (frames', i) <- framesLoop budget (pre ++ l ++ post) frames (length pre) ;;
           tenthBlock (pre ++ l ++ post) frames' i) = Ok (frames ++ fs))
    /\ (forall pre post st,
          rollIndex st = length pre ->
          scoreLoop ((pre ++ l) ++ post) fs (9 - n) st =
            scoreLoop (pre ++ l) fs (9 - n) st).
Proof.
  induction 1 as [l Ht | n l Hsh IH | n a b l Ha Hsh IH]; intros HF Hn.
  - destruct (tenth_shape_run l Ht) as (f & Hf & Hrun).
    exists [f]. splits.
    + reflexivity.
    + cbn. now rewrite app_nil_r.
    + intros budget pre post frames Hlen _.
      rewrite framesLoop_done by (left; lia). cbn [bind]. apply Hrun.
    + intros pre post st _. cbn [scoreLoop].
      now rewrite scoreStep_app by (right; lia).
  - inversion HF as [| ? ? H10 HF']; subst.
    destruct (IH HF' ltac:(lia)) as (fs & Hlen & Hflat & Hseg & Hsc).
    pose proof (game_shape_length n l Hsh) as Hl.
    exists (new_StrikeFrame :: fs). splits.
    + cbn [length]. now rewrite Hlen.
    + cbn [map concat]. now rewrite Hflat.
    + intros budget pre post frames Hfr Hb.
      destruct budget as [| b]; [lia |].
      rewrite (framesLoop_step b _ frames (length pre) 10)
        by first [lia | apply nth_error_mid].
      cbn [Z.eqb Pos.eqb PINS negb andb].
      change (createFrame (Z.of_nat (length frames)) 10 0 0) with
        (if Z.of_nat (length frames) =? FRAMES - 1
         then new_TenthFrame 10 0 0 else new_StrikeFrame).
      unfold FRAMES. destruct (Z.eqb_spec (Z.of_nat (length frames)) (10 - 1)); [lia |].
      replace (pre ++ (10 :: l) ++ post) with ((pre ++ [10]) ++ l ++ post)
        by (rewrite <- app_assoc; reflexivity).
      replace (S (length pre)) with (length (pre ++ [10]))
        by (rewrite length_app; cbn [length]; lia).
      rewrite Hseg by (try rewrite length_app; cbn [length]; lia).
      now rewrite <- app_assoc.
    + intros pre post st Hri. cbn [scoreLoop].
      rewrite scoreStep_app
        by (left; rewrite Hri, length_app; cbn [length]; lia).
      destruct (scoreStep_spec (pre ++ 10 :: l) (9 - S n) new_StrikeFrame st)
        as (bonus & _ & ->).
      cbn [bind].
      replace (S (9 - S n)) with (9 - n)%nat by lia.
      replace (pre ++ 10 :: l) with ((pre ++ [10]) ++ l)
        by (rewrite <- app_assoc; reflexivity).
      apply Hsc. cbn [rollIndex]. rewrite Hri, length_app.
      change (isStrike new_StrikeFrame) with true. reflexivity.
  - inversion HF as [| ? ? Hua HF1]; subst.
    inversion HF1 as [| ? ? Hub HF']; subst.
    destruct (IH HF' ltac:(lia)) as (fs & Hlen & Hflat & Hseg & Hsc).
    pose proof (game_shape_length n l Hsh) as Hl.
    exists (createFrame (Z.of_nat (9 - S n)) a b 0 :: fs). splits.
    + cbn [length]. now rewrite Hlen.
    + cbn [map concat]. rewrite Hflat, frame_rolls_createFrame by (assumption || lia).
      reflexivity.
    + intros budget pre post frames Hfr Hb.
      destruct budget as [| bu]; [lia |].
      rewrite (framesLoop_pair bu _ frames (length pre) a b)
        by first [lia | apply nth_error_mid | apply nth_error_mid2 | assumption].
      rewrite Hfr.
      replace (pre ++ (a :: b :: l) ++ post) with ((pre ++ [a; b]) ++ l ++ post)
        by (rewrite <- app_assoc; reflexivity).
      replace (S (S (length pre))) with (length (pre ++ [a; b]))
        by (rewrite length_app; cbn [length]; lia).
      rewrite Hseg by (try rewrite length_app; cbn [length]; lia).
      now rewrite <- app_assoc.
    + intros pre post st Hri. cbn [scoreLoop].
      rewrite scoreStep_app
        by (left; rewrite Hri, length_app; cbn [length]; lia).
      destruct (scoreStep_spec (pre ++ a :: b :: l) (9 - S n)
                  (createFrame (Z.of_nat (9 - S n)) a b 0) st)
        as (bonus & _ & ->).
      cbn [bind].
      replace (S (9 - S n)) with (9 - n)%nat by lia.
      replace (pre ++ a :: b :: l) with ((pre ++ [a; b]) ++ l)
        by (rewrite <- app_assoc; reflexivity).
      apply Hsc. cbn [rollIndex]. rewrite Hri, length_app.
      rewrite createFrame_isStrike by lia.
      destruct (Z.eqb_spec a 10); [contradiction | reflexivity].
Qed.

Lemma segment_shape l post :
  game_shape 9 l -> Forall is_u8 l ->
  exists fs,
    length fs = 10%nat
    /\ concat (map frame_rolls fs) = l
    /\ segment (l ++ post) = Ok fs
    /\ forall st, rollIndex st = 0%nat ->
         scoreLoop (l ++ post) fs 0%nat st = scoreLoop l fs 0%nat st.
Proof.
  intros Hsh HF.
  destruct (shape_run 9 l Hsh HF (le_n 9)) as (fs & Hlen & Hflat & Hseg & Hsc).
  exists fs. splits; [assumption | assumption | |].
  - unfold segment. change (Z.to_nat (FRAMES - 1)) with 9%nat.
    apply (Hseg 9%nat [] post []); [reflexivity | lia].
  - intros st Hri. apply (Hsc [] post st). now rewrite Hri.
Qed.

(** X5.  A game typed in through [processUserInput] is a finished game: its
    rolls are legal, between 11 and 21 of them, and [processFrames] cuts them
    into exactly ten frames that use every roll, in order.  It is read to the
    end whenever 21 lines of the input open with a legal pin count. *)
Theorem typed_game_is_complete (game : BowlingGame) (con : Console) :
  m_rolls game = [] ->
  (forall g' con',
     processUserInput game con = Ok (g', con') ->
     Forall valid_roll (m_rolls g')
     /\ (11 <= length (m_rolls g') <= 21)%nat
     /\ exists frames,
          segment (m_rolls g') = Ok frames
          /\ length frames = 10%nat
          /\ concat (map frame_rolls frames) = m_rolls g')
  /\ ((21 <= supply (cin con))%nat ->
      exists g' con', processUserInput game con = Ok (g', con')).
Proof.
  intros Hempty. unfold processUserInput. split.
  - intros g' con' E.
    destruct (userLoop_shape _ 0 game con g' con' ltac:(lia) E)
      as (l & Hl & Hsh & Hv & _ & _).
    rewrite Hempty in Hl. cbn [app] in Hl. rewrite Hl.
    change (Z.to_nat (9 - 0)) with 9%nat in Hsh.
    pose proof (game_shape_length 9 l Hsh) as Hlen.
    destruct (segment_shape l [] Hsh (Forall_valid_u8 l Hv))
      as (fs & Hfs & Hflat & Hseg & _).
    rewrite app_nil_r in Hseg.
    splits; [assumption | lia | lia |]. exists fs. auto.
  - intros Hs. apply userLoop_total; cbn; lia.
Qed.

Lemma typed_game_is_complete_witness :
  m_rolls newGame = []
  /\ exists g' con',
       processUserInput newGame
         (mkConsole (repeat [Num 10] 12) String.EmptyString String.EmptyString)
         = Ok (g', con')
       /\ (11 <= length (m_rolls g') <= 21)%nat.
Proof.
  split; [reflexivity |].
  destruct (typed_game_is_complete newGame
              (mkConsole (repeat [Num 10] 12) String.EmptyString String.EmptyString)
              eq_refl) as [H _].
  assert (exists g' con',
            processUserInput newGame
              (mkConsole (repeat [Num 10] 12) String.EmptyString String.EmptyString)
              = Ok (g', con')) as (g' & con' & E)
      by (eexists _, _; vm_compute; reflexivity).
  exists g', con'. split; [exact E | exact (proj1 (proj2 (H g' con' E)))].
Defined.

(** X6.  Rolls recorded after a finished game change nothing: the frames,
    the cumulative scores and the total are those of the game alone. *)
Theorem rolls_after_game_ignored (l post : list Z) :
  game_shape 9 l ->
  Forall is_u8 l ->
  exists total scores frames,
    play l = Ok (total, mkGame l scores frames)
    /\ play (l ++ post) = Ok (total, mkGame (l ++ post) scores frames)
    /\ length frames = 10%nat
    /\ concat (map frame_rolls frames) = l.
Proof.
  intros Hsh HF.
  destruct (segment_shape l post Hsh HF) as (fs & Hlen & Hflat & Hseg & Hsc).
  destruct (segment_shape l [] Hsh HF) as (fs0 & _ & Hflat0 & Hseg0 & _).
  rewrite app_nil_r in Hseg0.
  assert (fs0 = fs) as ->.
  { destruct (shape_run 9 l Hsh HF (le_n 9)) as (fs1 & _ & _ & H1 & _).
    pose proof (H1 9%nat [] post [] eq_refl (le_n 9)) as A.
    pose proof (H1 9%nat [] [] [] eq_refl (le_n 9)) as B.
    cbn [app] in A, B. rewrite app_nil_r in B.
    unfold segment in Hseg, Hseg0. change (Z.to_nat (FRAMES - 1)) with 9%nat in *.
    cbn [length] in A, B. rewrite A in Hseg. rewrite B in Hseg0.
    congruence. }
  destruct (scoreLoop_total l fs 0%nat initScore) as (st & Est & _ & _).
  exists (totalScore st), (scores st), fs.
  rewrite !play_unfold, Hseg, Hseg0. cbn [bind].
  rewrite (Hsc initScore eq_refl), Est. cbn [bind]. auto.
Qed.

Lemma rolls_after_game_ignored_witness :
  game_shape 9 (repeat 10 12)
  /\ Forall is_u8 (repeat 10 12)
  /\ exists total scores frames,
       play (repeat 10 12) = Ok (total, mkGame (repeat 10 12) scores frames)
       /\ play (repeat 10 12 ++ [3; 4]) =
            Ok (total, mkGame (repeat 10 12 ++ [3; 4]) scores frames)
       /\ length frames = 10%nat
       /\ concat (map frame_rolls frames) = repeat 10 12.
Proof.
  assert (game_shape 9 (repeat 10 12)) as Hsh.
  { cbn [repeat]. do 9 apply shape_strike.
    apply shape_tenth, tenth_three. left. reflexivity. }
  assert (Forall is_u8 (repeat 10 12)) as HF
      by (repeat constructor; unfold is_u8; lia).
  splits; [exact Hsh | exact HF |].
  exact (rolls_after_game_ignored (repeat 10 12) [3; 4] Hsh HF).
Defined.

(** ** The board *)

Lemma length_spaces n : String.length (spaces n) = n.
Proof. induction n as [| n IH]; cbn; [reflexivity | now rewrite IH]. Qed.

Lemma length_cell s :
  (String.length s <= 4)%nat -> String.length (cell s) = 7%nat.
Proof.
  intros H. unfold cell, setw. rewrite !length_append, length_spaces.
  cbn [String.length]. lia.
Qed.

(** Decimal text of the numbers below 1000 has one, two or three digits. *)
Lemma to_string_digits n :
  (n < 1000)%nat ->
  String.length (to_string (Z.of_nat n)) =
    if (n <? 10)%nat then 1%nat else if (n <? 100)%nat then 2%nat else 3%nat.
Proof.
  intros Hn.
  assert (forallb
            (fun n => String.length (to_string (Z.of_nat n)) =?
                      (if (n <? 10) then 1 else if (n <? 100) then 2 else 3))%nat
            (seq 0 1000) = true) as Hall by (vm_compute; reflexivity).
  rewrite forallb_forall in Hall. apply Nat.eqb_eq, Hall, in_seq. lia.
Qed.

Lemma to_string_width z :
  0 <= z <= 999 -> (String.length (to_string z) <= 3)%nat.
Proof.
  intros Hz. rewrite <- (Z2Nat.id z) by lia. rewrite to_string_digits by lia.
  destruct (Z.to_nat z <? 10)%nat; [lia |]. destruct (Z.to_nat z <? 100)%nat; lia.
Qed.

Lemma to_string_digit z : 0 <= z <= 9 -> String.length (to_string z) = 1%nat.
Proof.
  intros Hz. rewrite <- (Z2Nat.id z) by lia. rewrite to_string_digits by lia.
  destruct (Nat.ltb_spec (Z.to_nat z) 10); [reflexivity | lia].
Qed.

Lemma to_string_roll z : valid_roll z -> (String.length (to_string z) <= 2)%nat.
Proof.
  unfold valid_roll. intros Hz. rewrite <- (Z2Nat.id z) by lia.
  rewrite to_string_digits by lia.
  destruct (Z.to_nat z <? 10)%nat; [lia |].
  destruct (Nat.ltb_spec (Z.to_nat z) 100); lia.
Qed.

Lemma label_width idx r1 r2 r3 :
  idx <> 9 -> valid_roll r1 -> valid_roll r2 ->
  (String.length (frameType (createFrame idx r1 r2 r3)) <= 4)%nat.
Proof.
  intros Hi H1 H2. pose proof (to_string_roll r2 H2) as W2. unfold valid_roll in H1.
  destruct (createFrame_cases idx r1 r2 r3)
    as [[? _] | [(_ & _ & ->) | [(_ & Hne & _ & ->) | (_ & Hne & _ & ->)]]];
    [contradiction | cbn; lia | |];
    cbn [frameType new_SpareFrame new_NormalFrame Frame_ctor roll1 roll2 pins];
    rewrite !length_append, (to_string_digit r1) by lia; cbn [String.length]; lia.
Qed.

Lemma length_cells {A} (f : A -> String.string) (l : list A) :
  (forall x, In x l -> String.length (f x) = 7%nat) ->
  String.length (String.concat String.EmptyString (map f l)) = (7 * length l)%nat.
Proof.
  induction l as [| x l IH]; intros H; [reflexivity |].
  cbn [map String.concat length].
  assert (String.length (String.concat String.EmptyString (map f l)) = (7 * length l)%nat)
    as IH' by (apply IH; intros y Hy; apply H; now right).
  destruct (map f l) as [| y ys] eqn:E.
  - destruct l; [| discriminate E]. cbn [length]. rewrite H by now left. reflexivity.
  - rewrite !length_append, IH', H by now left. cbn [String.length]. lia.
Qed.

(** X7.  On legal rolls the board lines up: every score column, and every
    roll column before the tenth, is exactly seven characters wide, like the
    columns of the heading, so the score row is as long as the heading and
    the rule when all ten frames are there.  (The tenth roll column is not
    held to that width.) *)
Theorem board_columns (rolls : list Z) :
  Forall valid_roll rolls ->
  exists total g,
    play rolls = Ok (total, g)
    /\ (forall k f, nth_error (m_frames g) k = Some f -> (k < 9)%nat ->
          String.length (cell (frameType f)) = 7%nat)
    /\ (forall s, In s (m_scores g) -> String.length (cell (to_string s)) = 7%nat)
    /\ String.length ("Score |"%string +++ scoreCells (m_scores g)) =
         (7 + 7 * length (m_frames g))%nat
    /\ String.length ("Frame |"%string +++ frameCells) = (7 + 7 * 10)%nat
    /\ String.length rule = (1 + (7 + 7 * 10) + 1)%nat.
Proof.
  intros HF. rewrite play_unfold.
  destruct (segment_spec rolls) as (frames & Hseg & Hlen & _ & _).
  rewrite Hseg. cbn [bind].
  destruct (scoreLoop_bound rolls frames 0%nat initScore 0%nat HF)
    as (st & -> & (Hl & Ht & Hs)).
  - intros j f Hj. destruct (segment_reads rolls frames Hseg j f Hj) as [_ Ef].
    eexists. exact Ef.
  - cbn. lia.
  - apply bound_inv_init.
  - cbn [bind]. exists (totalScore st), (mkGame rolls (scores st) frames).
    cbn [m_frames m_scores Nat.add] in *.
    assert (forall s, In s (scores st) -> String.length (cell (to_string s)) = 7%nat)
      as Hcells.
    { intros s Hin. apply In_nth_error in Hin as [k Hk].
      assert (k < length (scores st))%nat
        by (apply nth_error_Some; rewrite Hk; discriminate).
      specialize (Hs k s Hk).
      apply length_cell. pose proof (to_string_width s). lia. }
    splits; [reflexivity | | exact Hcells | | reflexivity | reflexivity].
    + intros k f Hk H9.
      destruct (segment_reads rolls frames Hseg k f Hk) as [_ ->].
      apply length_cell. unfold frame_at. apply label_width; [lia | |].
      * apply nth_Forall; auto with bowling.
      * destruct (_ && _); [| apply nth_Forall]; auto with bowling.
    + rewrite length_append. unfold scoreCells.
      rewrite (length_cells _ _ Hcells), Hl. reflexivity.
Qed.

Lemma board_columns_witness :
  Forall valid_roll [10; 7; 3; 4; 2]
  /\ exists total g,
       play [10; 7; 3; 4; 2] = Ok (total, g)
       /\ String.length ("Score |"%string +++ scoreCells (m_scores g)) =
            (7 + 7 * length (m_frames g))%nat.
Proof.
  assert (Forall valid_roll [10; 7; 3; 4; 2]) as H
      by (repeat (apply Forall_cons; [unfold valid_roll; lia |]); apply Forall_nil).
  split; [exact H |].
  destruct (board_columns [10; 7; 3; 4; 2] H) as (total & g & E & _ & _ & W & _).
  exists total, g. split; [exact E | exact W].
Defined.

(** ** The whole program *)

(** X8.  With [USER_DRIVEN], and 21 lines of input that open with a legal
    pin count, [main] ends with status 0: it reads a whole game, prints the
    board of that game and then the line of its total, which is the score of
    the rolls typed and at most 300.  Nothing more is written to
    [std::cerr] once the game is read. *)
Theorem main_user_runs (con : Console) :
  (21 <= supply (cin con))%nat ->
  exists g c1 total g2 con',
    processUserInput newGame con = Ok (g, c1)
    /\ play (m_rolls g) = Ok (total, g2)
    /\ 0 <= total <= 300
    /\ main_user con = Ok (0, con')
    /\ con' = put ("Total score: "%string +++ to_string total +++ nl) (displayBoard g2 c1)
    /\ cerr con' = cerr c1
    /\ cin con' = cin c1.
Proof.
  intros Hs. unfold main_user, processUserInput.
  destruct (userLoop_total (Z.to_nat FRAMES) 0 newGame con) as (g & c1 & E);
    [lia | cbn; lia | cbn; lia |].
  destruct (userLoop_shape _ 0 newGame con g c1 ltac:(lia) E)
    as (l & Hl & _ & Hv & Hsc & Hfr).
  cbn [newGame m_rolls m_scores m_frames app] in Hl, Hsc, Hfr.
  assert (g = mkGame l [] []) as -> by (destruct g; cbn in *; congruence).
  rewrite E. cbn [bind m_rolls].
  pose proof (play_unfold l) as Hplay.
  unfold finish, processFrames, calculateScore. cbn [m_rolls m_scores m_frames].
  destruct (segment_spec l) as (frames & Hseg & Hlen & _ & _).
  rewrite Hseg in Hplay |- *. cbn [bind m_rolls m_frames m_scores] in Hplay |- *.
  destruct (scoreLoop_bound l frames 0%nat initScore 0%nat Hv)
    as (st & Est & (_ & Ht & _)).
  - intros j f Hj. destruct (segment_reads l frames Hseg j f Hj) as [_ Ef].
    eexists. exact Ef.
  - cbn. lia.
  - apply bound_inv_init.
  - rewrite Est in Hplay |- *. cbn [bind] in Hplay |- *.
    exists (mkGame l [] []), c1, (totalScore st), (mkGame l (scores st) frames).
    eexists. cbn [Nat.add] in Ht.
    splits; [reflexivity | exact Hplay | lia | lia | reflexivity | reflexivity ..].
Qed.

Lemma main_user_runs_witness :
  (21 <= supply (repeat [Num 10] 21))%nat
  /\ exists con',
       main_user (mkConsole (repeat [Num 10] 21) String.EmptyString String.EmptyString)
         = Ok (0, con').
Proof.
  assert (21 <= supply (repeat [Num 10] 21))%nat as H by (vm_compute; lia).
  split; [exact H |].
  destruct (main_user_runs
              (mkConsole (repeat [Num 10] 21) String.EmptyString String.EmptyString) H)
    as (_ & _ & _ & _ & con' & _ & _ & _ & E & _).
  exists con'. exact E.
Defined.

(** ** More rolls, more points *)

Lemma segment_exit rolls frames :
  segment rolls = Ok frames ->
  length frames = 10%nat \/ (length rolls <= cursor frames)%nat.
Proof.
  unfold segment. intros E.
  destruct (framesLoop (Z.to_nat (FRAMES - 1)) rolls [] 0%nat)
    as [[fs i] | e] eqn:El; [| discriminate E].
  cbn [bind] in E.
  destruct (framesLoop_rule
              (fun frames i => (i <= cursor frames)%nat /\ (length frames <= 9)%nat)
              rolls) with (2 := El) as [[Hi H9] Hex].
  - intros fr j [Hj Hl] Hl9 _. unfold PINS.
    destruct (Z.eqb_spec (nth j rolls 0) 10) as [H10 | H10]; cbn [negb andb];
      [| destruct (S j <? length rolls)%nat];
      rewrite cursor_snoc, length_app; unfold advance;
      rewrite createFrame_isStrike by lia;
      (destruct (Z.eqb_spec (nth j rolls 0) 10); [| try contradiction]);
      cbn [length]; lia.
  - cbn. lia.
  - destruct (Nat.lt_ge_cases i (length rolls)) as [Hlt | Hge].
    + rewrite (tenthBlock_frame rolls fs i Hlt) in E. injection E as <-.
      left. rewrite length_app. cbn [length]. lia.
    + unfold tenthBlock in E.
      destruct (Nat.ltb_spec i (length rolls)) as [H | _]; [lia |].
      injection E as <-. right. lia.
Qed.

Lemma firstn_snoc {A} (l : list A) j x :
  nth_error l j = Some x -> firstn (S j) l = firstn j l ++ [x].
Proof.
  revert j. induction l as [| y l IH]; intros [| j] H; try discriminate.
  - injection H as <-. reflexivity.
  - cbn [firstn app]. f_equal. now apply IH.
Qed.

Lemma isStrike_frame_at rolls k c :
  isStrike (frame_at rolls k c) = (nth c rolls 0 =? 10).
Proof. unfold isStrike, frame_at. now rewrite firstRoll_createFrame. Qed.

Lemma frame_at_contrib rolls k c b :
  Forall valid_roll rolls -> (k <= 9)%nat ->
  frameBonus rolls k (frame_at rolls k c) c = Ok b ->
  score (frame_at rolls k c) + b = contrib rolls k c.
Proof.
  intros HF Hk.
  pose proof (nth_Forall valid_roll rolls c valid_roll_0 HF) as Ha.
  pose proof (nth_Forall valid_roll rolls (c + 1) valid_roll_0 HF) as Hx.
  pose proof (nth_Forall valid_roll rolls (c + 2) valid_roll_0 HF) as Hy.
  pose proof (third_read_valid rolls c HF) as Ht.
  unfold valid_roll in *. unfold frame_at, contrib, PINS.
  destruct (Nat.eqb_spec k 9) as [-> | Hk9].
  - cbn [Nat.ltb Nat.leb andb]. rewrite frameBonus_last by lia. intros [= <-].
    change (createFrame (Z.of_nat 9)) with new_TenthFrame.
    cbn [score new_TenthFrame Frame_ctor roll1 roll2 pins].
    rewrite u16_small; lia.
  - assert ((k <? 9)%nat = true) as -> by (apply Nat.ltb_lt; lia). cbn [andb].
    assert ((Z.of_nat k <? FRAMES - 1) = true) as Hlt
        by (apply Z.ltb_lt; unfold FRAMES; lia).
    unfold frameBonus. rewrite Hlt.
    destruct (Z.eqb_spec (nth c rolls 0) 10) as [H10 | H10].
    + rewrite H10.
      destruct (createFrame_cases (Z.of_nat k) 10 0 0)
        as [[? _] | [(_ & _ & ->) | [(_ & ? & _) | (_ & ? & _)]]]; try lia.
      change (isStrike new_StrikeFrame) with true.
      rewrite strikeBonus_nth by assumption. intros [= <-].
      cbn [score new_StrikeFrame]. unfold BASE_SCORE. lia.
    + destruct (createFrame_cases (Z.of_nat k) (nth c rolls 0) (nth (c + 1) rolls 0) 0)
        as [[? _] | [(_ & ? & _) | [(_ & _ & Hs & E) | (_ & _ & Hs & E)]]]; try lia.
      * destruct (factory_strike_spare_facts (Z.of_nat k) (nth c rolls 0)
                    (nth (c + 1) rolls 0) 0) as [P _];
          [unfold is_u8; lia | unfold is_u8; lia |].
        rewrite E in P. destruct (P eq_refl) as (_ & _ & Hsp).
        rewrite E, Hsp.
        assert (isStrike (new_SpareFrame (nth c rolls 0)) = false) as ->
            by (apply Z.eqb_neq; cbn; exact H10).
        rewrite spareBonus_nth. intros [= <-].
        destruct (Z.eqb_spec (nth c rolls 0 + nth (c + 1) rolls 0) 10); [| lia].
        cbn [score new_SpareFrame]. unfold BASE_SCORE. lia.
      * rewrite E. destruct (plain_open_any _ _ H10 Hs) as [-> ->]. intros [= <-].
        destruct (Z.eqb_spec (nth c rolls 0 + nth (c + 1) rolls 0) 10); [lia |].
        cbn [score new_NormalFrame Frame_ctor roll1 roll2 pins].
        rewrite u16_small; lia.
Qed.

Lemma nth_app_grow rolls more i :
  Forall valid_roll more ->
  ((i < length rolls)%nat /\ nth i (rolls ++ more) 0 = nth i rolls 0)
  \/ ((length rolls <= i)%nat /\ nth i rolls 0 = 0 /\ 0 <= nth i (rolls ++ more) 0 <= 10).
Proof.
  intros HM. destruct (Nat.lt_ge_cases i (length rolls)) as [H | H].
  - left. split; [assumption | now apply app_nth1].
  - right. splits; [assumption | now apply nth_overflow | |];
      rewrite app_nth2 by assumption;
      apply (nth_Forall valid_roll more _ valid_roll_0 HM).
Qed.

Lemma contrib_mono rolls more k c :
  Forall valid_roll rolls -> Forall valid_roll more ->
  (c < length rolls)%nat ->
  contrib rolls k c <= contrib (rolls ++ more) k c.
Proof.
  intros HF HM Hc.
  pose proof (nth_Forall valid_roll rolls c valid_roll_0 HF) as Ha.
  pose proof (nth_Forall valid_roll rolls (c + 1) valid_roll_0 HF) as Hx.
  pose proof (nth_Forall valid_roll rolls (c + 2) valid_roll_0 HF) as Hy.
  unfold valid_roll in *. unfold contrib, third_read, PINS.
  rewrite length_app, (app_nth1 rolls more 0 Hc).
  destruct (nth_app_grow rolls more (c + 1) HM) as [[L1 ->] | (L1 & E1 & B1)];
  destruct (nth_app_grow rolls more (c + 2) HM) as [[L2 ->] | (L2 & E2 & B2)];
    try lia;
    try rewrite E1; try rewrite E2;
    repeat match goal with
           | |- context [Nat.ltb ?a ?b] => destruct (Nat.ltb_spec a b); try lia
           | |- context [Nat.eqb ?a ?b] => destruct (Nat.eqb_spec a b)
           | |- context [Z.eqb ?a ?b] => destruct (Z.eqb_spec a b)
           end;
    cbn [andb orb]; try lia.
Qed.

Lemma score_nonneg f : 0 <= score f.
Proof.
  destruct f; cbn [score]; unfold BASE_SCORE; try lia;
    match goal with |- 0 <= u16 ?z => pose proof (u16_range z); lia end.
Qed.

Lemma scoreLoop_grows rolls frames : forall i st st2,
  Forall is_u8 rolls ->
  scoreLoop rolls frames i st = Ok st2 ->
  totalScore st <= totalScore st2
  /\ exists more, scores st2 = scores st ++ more.
Proof.
  induction frames as [| f fs IH]; intros i st st2 HF E; cbn [scoreLoop] in E.
  - injection E as <-. split; [lia |]. exists []. now rewrite app_nil_r.
  - destruct (scoreStep_spec rolls i f st) as (b & Hb & Es). rewrite Es in E.
    cbn [bind] in E. apply frameBonus_range in Hb; [| assumption].
    destruct (IH _ _ _ HF E) as [Ht [more Hm]]. cbn [totalScore scores] in Ht, Hm.
    pose proof (score_nonneg f). unfold is_u8 in Hb. split; [lia |].
    eexists. rewrite Hm, <- app_assoc. reflexivity.
Qed.

Lemma Forall2_nth_le (l l' : list Z) k s s' :
  Forall2 Z.le l l' ->
  nth_error l k = Some s -> nth_error l' k = Some s' -> s <= s'.
Proof.
  intros H. revert k. induction H as [| x y l l' Hxy _ IH]; intros [| k] A B;
    try discriminate.
  - injection A as <-. injection B as <-. exact Hxy.
  - eapply IH; eassumption.
Qed.

(** Frame by frame, the run on the longer roll sequence stays ahead. *)
Lemma grow_prefix rolls more frames frames' :
  Forall valid_roll rolls -> Forall valid_roll more ->
  segment rolls = Ok frames ->
  segment (rolls ++ more) = Ok frames' ->
  forall j, (j <= length frames)%nat ->
    (j <= length frames')%nat
    /\ cursor (firstn j frames') = cursor (firstn j frames)
    /\ exists st st',
         scoreLoop rolls (firstn j frames) 0%nat initScore = Ok st
         /\ scoreLoop (rolls ++ more) (firstn j frames') 0%nat initScore = Ok st'
         /\ rollIndex st = cursor (firstn j frames)
         /\ grows j st st'.
Proof.
  intros HF HM Hseg Hseg'.
  assert (Forall valid_roll (rolls ++ more)) as HF' by (apply Forall_app; auto).
  destruct (segment_spec rolls) as (fs0 & E0 & Hlen & _ & _).
  rewrite Hseg in E0. injection E0 as <-.
  pose proof (segment_reads rolls frames Hseg) as Hr.
  pose proof (segment_reads (rolls ++ more) frames' Hseg') as Hr'.
  induction j as [| j IH]; intros Hj.
  - splits; [lia | reflexivity |]. exists initScore, initScore.
    unfold grows. cbn. splits; try reflexivity; try lia. constructor.
  - destruct (IH ltac:(lia)) as (Hj' & Hc & st & st' & E & E' & Hri & (Gr & Gt & Gb & Gs)).
    destruct (nth_error frames j) as [f |] eqn:Hf;
      [| apply nth_error_None in Hf; lia].
    destruct (Hr j f Hf) as [Hcl Ef].
    set (c := cursor (firstn j frames)) in *.
    assert (j < length frames')%nat as Hlt'.
    { destruct (Nat.lt_ge_cases j (length frames')) as [| Hge]; [assumption |].
      exfalso. rewrite firstn_all2 in Hc by assumption.
      destruct (segment_exit _ _ Hseg') as [H10 | Hex]; [lia |].
      rewrite length_app in Hex. lia. }
    destruct (nth_error frames' j) as [f' |] eqn:Hf';
      [| apply nth_error_None in Hf'; lia].
    destruct (Hr' j f' Hf') as [_ Ef']. rewrite Hc in Ef'. fold c in Ef'.
    rewrite (firstn_snoc frames j f Hf), (firstn_snoc frames' j f' Hf').
    assert (nth c (rolls ++ more) 0 = nth c rolls 0) as Enth by now apply app_nth1.
    assert (isStrike f' = isStrike f) as Estr
        by (rewrite Ef, Ef', !isStrike_frame_at, Enth; reflexivity).
    splits; [lia | |].
    + rewrite !cursor_snoc. unfold advance. rewrite Hc, Estr. reflexivity.
    + rewrite !scoreLoop_app, E, E'. cbn [bind scoreLoop].
      rewrite !length_firstn, !Nat.min_l by lia. cbn [Nat.add].
      destruct (scoreStep_spec rolls j f st) as (b & Hb & ->).
      destruct (scoreStep_spec (rolls ++ more) j f' st') as (b' & Hb' & ->).
      cbn [bind]. rewrite Hri in Hb. rewrite <- Gr, Hri in Hb'.
      rewrite Ef in Hb. rewrite Ef' in Hb'.
      pose proof (frame_at_bound _ _ _ _ _ HF Hb) as B1.
      pose proof (frame_at_bound _ _ _ _ _ HF' Hb') as B2.
      assert (j <= 9)%nat as Hj9 by lia.
      pose proof (frame_at_contrib _ _ _ _ HF Hj9 Hb) as C1.
      pose proof (frame_at_contrib _ _ _ _ HF' Hj9 Hb') as C2.
      pose proof (contrib_mono rolls more j c HF HM Hcl) as Hmono.
      rewrite <- Ef in B1, C1. rewrite <- Ef' in B2, C2.
      eexists _, _. splits; [reflexivity | reflexivity | |].
      * cbn [rollIndex]. rewrite cursor_snoc, Hri. reflexivity.
      * unfold grows. cbn [rollIndex totalScore scores]. splits.
        -- now rewrite Gr, Estr.
        -- lia.
        -- lia.
        -- lia.
        -- apply Forall2_app; [assumption |]. constructor; [| constructor].
           rewrite !u16_small by lia. lia.
Qed.

(** X9.  Recording more legal rolls never lowers anything on the board: no
    frame is lost, each cumulative score stays or grows, and so does the
    total. *)
Theorem score_grows_with_rolls (rolls more : list Z) :
  Forall valid_roll rolls ->
  Forall valid_roll more ->
  exists total g total' g',
    play rolls = Ok (total, g)
    /\ play (rolls ++ more) = Ok (total', g')
    /\ total <= total'
    /\ (length (m_frames g) <= length (m_frames g'))%nat
    /\ (forall k s s',
          nth_error (m_scores g) k = Some s ->
          nth_error (m_scores g') k = Some s' -> s <= s').
Proof.
  intros HF HM. rewrite !play_unfold.
  destruct (segment_spec rolls) as (frames & Hseg & _).
  destruct (segment_spec (rolls ++ more)) as (frames' & Hseg' & _).
  rewrite Hseg, Hseg'. cbn [bind].
  destruct (grow_prefix rolls more frames frames' HF HM Hseg Hseg'
              (length frames) (le_n _))
    as (Hlen & _ & st & st' & E & E' & _ & (_ & Gt & _ & Gs)).
  rewrite firstn_all in E. rewrite E. cbn [bind].
  destruct (scoreLoop_total (rolls ++ more) frames' 0%nat initScore) as (st2 & E2 & _).
  rewrite E2. cbn [bind].
  rewrite <- (firstn_skipn (length frames) frames') in E2.
  rewrite scoreLoop_app, E' in E2. cbn [bind] in E2.
  apply scoreLoop_grows in E2 as [Ht [extra Hex]];
    [| apply Forall_valid_u8, Forall_app; auto].
  exists (totalScore st), (mkGame rolls (scores st) frames),
    (totalScore st2), (mkGame (rolls ++ more) (scores st2) frames').
  cbn [m_frames m_scores]. splits; [reflexivity | reflexivity | lia | assumption |].
  intros k s s' Hs Hs'. rewrite Hex in Hs'.
  assert (k < length (scores st))%nat as Hk
      by (apply nth_error_Some; rewrite Hs; discriminate).
  rewrite nth_error_app1 in Hs' by (rewrite <- (Forall2_length Gs); exact Hk).
  exact (Forall2_nth_le _ _ _ _ _ Gs Hs Hs').
Qed.

Lemma score_grows_with_rolls_witness :
  Forall valid_roll [10; 7] /\ Forall valid_roll [3; 4]
  /\ exists total g total' g',
       play [10; 7] = Ok (total, g)
       /\ play ([10; 7] ++ [3; 4]) = Ok (total', g')
       /\ total <= total'.
Proof.
  assert (Forall valid_roll [10; 7]) as H1
      by (repeat (apply Forall_cons; [unfold valid_roll; lia |]); apply Forall_nil).
  assert (Forall valid_roll [3; 4]) as H2
      by (repeat (apply Forall_cons; [unfold valid_roll; lia |]); apply Forall_nil).
  splits; [exact H1 | exact H2 |].
  destruct (score_grows_with_rolls [10; 7] [3; 4] H1 H2)
    as (t & g & t' & g' & A & B & C & _).
  exists t, g, t', g'. splits; assumption.
Defined.

(** ** The score by the rules of the game *)

Lemma score_running rolls frames :
  Forall valid_roll rolls ->
  segment rolls = Ok frames ->
  forall j, (j <= length frames)%nat ->
    exists st,
      scoreLoop rolls (firstn j frames) 0%nat initScore = Ok st
      /\ rollIndex st = cursor (firstn j frames)
      /\ totalScore st = running rolls frames j
      /\ 0 <= totalScore st <= 30 * Z.of_nat j
      /\ scores st = map (fun k => running rolls frames (S k)) (seq 0 j).
Proof.
  intros HF Hseg.
  destruct (segment_spec rolls) as (fs0 & E0 & Hlen & _ & _).
  rewrite Hseg in E0. injection E0 as <-.
  pose proof (segment_reads rolls frames Hseg) as Hr.
  induction j as [| j IH]; intros Hj.
  - exists initScore. cbn. splits; try reflexivity; lia.
  - destruct (IH ltac:(lia)) as (st & E & Hri & Ht & Hb & Hs).
    destruct (nth_error frames j) as [f |] eqn:Hf;
      [| apply nth_error_None in Hf; lia].
    destruct (Hr j f Hf) as [_ Ef].
    rewrite (firstn_snoc frames j f Hf), scoreLoop_app, E. cbn [bind scoreLoop].
    rewrite length_firstn, Nat.min_l by lia. cbn [Nat.add].
    destruct (scoreStep_spec rolls j f st) as (b & Hbon & ->). cbn [bind].
    rewrite Hri, Ef in Hbon.
    assert (j <= 9)%nat as Hj9 by lia.
    pose proof (frame_at_bound _ _ _ _ _ HF Hbon) as B.
    pose proof (frame_at_contrib _ _ _ _ HF Hj9 Hbon) as C.
    rewrite <- Ef in B, C.
    eexists. splits; [reflexivity | | | | |]; cbn [rollIndex totalScore scores].
    + rewrite cursor_snoc, Hri. reflexivity.
    + cbn [running]. lia.
    + lia.
    + lia.
    + rewrite seq_S, map_app, <- Hs. cbn [map Nat.add running].
      rewrite u16_small by lia. do 2 f_equal. lia.
Qed.

Lemma contrib_bound rolls k c :
  Forall valid_roll rolls -> 0 <= contrib rolls k c <= 30.
Proof.
  intros HF.
  pose proof (nth_Forall valid_roll rolls c valid_roll_0 HF) as Ha.
  pose proof (nth_Forall valid_roll rolls (c + 1) valid_roll_0 HF) as Hx.
  pose proof (nth_Forall valid_roll rolls (c + 2) valid_roll_0 HF) as Hy.
  pose proof (third_read_valid rolls c HF) as Ht.
  unfold valid_roll in *. unfold contrib.
  destruct (k =? 9)%nat; [lia |].
  destruct (Z.eqb_spec (nth c rolls 0) 10); [lia |].
  destruct (Z.eqb_spec (nth c rolls 0 + nth (c + 1) rolls 0) 10); lia.
Qed.

Lemma running_bound rolls frames j :
  Forall valid_roll rolls -> 0 <= running rolls frames j <= 30 * Z.of_nat j.
Proof.
  intros HF. induction j as [| j IH]; cbn [running]; [lia |].
  pose proof (contrib_bound rolls j (cursor (firstn j frames)) HF). lia.
Qed.

Lemma nth_error_map_seq {A} (f : nat -> A) n k s :
  nth_error (map f (seq 0 n)) k = Some s -> (k < n)%nat /\ s = f k.
Proof.
  intros H.
  assert (k < length (map f (seq 0 n)))%nat as Hk
      by (apply nth_error_Some; rewrite H; discriminate).
  rewrite (nth_error_nth' _ (f 0%nat) Hk) in H. injection H as <-.
  rewrite length_map, length_seq in Hk.
  split; [assumption |]. rewrite map_nth, seq_nth by assumption. reflexivity.
Qed.

(** X2.  On legal rolls every frame adds between 0 and 30 points.  The board
    has one cumulative score per frame; the first is between 0 and 30 and
    each one after it exceeds the one before by between 0 and 30, so the
    score after frame k + 1 is at most 30 (k + 1); the total is the last of
    them, at most 30 per frame and at most 300. *)
Theorem score_at_most_300 (rolls : list Z) :
  Forall valid_roll rolls ->
  exists total g,
    play rolls = Ok (total, g)
    /\ length (m_scores g) = length (m_frames g)
    /\ (forall s, nth_error (m_scores g) 0 = Some s -> 0 <= s <= 30)
    /\ (forall k a b,
          nth_error (m_scores g) k = Some a ->
          nth_error (m_scores g) (S k) = Some b -> 0 <= b - a <= 30)
    /\ (forall k s, nth_error (m_scores g) k = Some s ->
          0 <= s <= 30 * (Z.of_nat k + 1))
    /\ total = last (m_scores g) 0
    /\ 0 <= total <= 30 * Z.of_nat (length (m_frames g))
    /\ total <= 300.
Proof.
  intros HF. rewrite play_unfold.
  destruct (segment_spec rolls) as (frames & Hseg & Hlen & _ & _).
  rewrite Hseg. cbn [bind].
  destruct (score_running rolls frames HF Hseg (length frames) (le_n _))
    as (st & E & _ & Ht & Hb & Hs).
  rewrite firstn_all in E. rewrite E. cbn [bind].
  exists (totalScore st), (mkGame rolls (scores st) frames).
  cbn [m_frames m_scores]. rewrite Hs.
  splits; [reflexivity | | | | | | lia | lia | lia].
  - now rewrite length_map, length_seq.
  - intros s H0. apply nth_error_map_seq in H0 as [_ ->]. cbn [running].
    pose proof (contrib_bound rolls 0 (cursor (firstn 0 frames)) HF). lia.
  - intros k a b Ha Hb'.
    apply nth_error_map_seq in Ha as [_ ->].
    apply nth_error_map_seq in Hb' as [_ ->].
    cbn [running].
    pose proof (contrib_bound rolls (S k) (cursor (firstn (S k) frames)) HF). lia.
  - intros k s Hk. apply nth_error_map_seq in Hk as [_ ->].
    pose proof (running_bound rolls frames (S k) HF). lia.
  - rewrite Ht. destruct (length frames) as [| n]; [reflexivity |].
    rewrite seq_S, map_app. cbn [map Nat.add]. now rewrite last_last.
Qed.

Lemma score_at_most_300_witness :
  Forall valid_roll [10; 10; 10; 10]
  /\ exists total g,
       play [10; 10; 10; 10] = Ok (total, g)
       /\ length (m_scores g) = length (m_frames g)
       /\ (forall s, nth_error (m_scores g) 0 = Some s -> 0 <= s <= 30)
       /\ (forall k a b,
             nth_error (m_scores g) k = Some a ->
             nth_error (m_scores g) (S k) = Some b -> 0 <= b - a <= 30)
       /\ (forall k s, nth_error (m_scores g) k = Some s ->
             0 <= s <= 30 * (Z.of_nat k + 1))
       /\ total = last (m_scores g) 0
       /\ 0 <= total <= 30 * Z.of_nat (length (m_frames g))
       /\ total <= 300.
Proof.
  assert (Forall valid_roll [10; 10; 10; 10]) as H
      by (repeat (apply Forall_cons; [unfold valid_roll; lia |]); apply Forall_nil).
  split; [exact H | exact (score_at_most_300 [10; 10; 10; 10] H)].
Defined.

(** X10.  On legal rolls the board follows the rules of the game.  Frame by
    frame, at the cursor that moves on by one roll after a strike and by two
    otherwise, the tenth frame adds its own two or three rolls, a strike adds
    ten and the next two rolls, a spare ten and the next roll, any other
    frame its two rolls; rolls not yet made count 0.  The cumulative scores
    are the running sums of these, and the total is the last. *)
Theorem score_by_the_rules (rolls : list Z) :
  Forall valid_roll rolls ->
  exists total g,
    play rolls = Ok (total, g)
    /\ total = running rolls (m_frames g) (length (m_frames g))
    /\ m_scores g =
         map (fun k => running rolls (m_frames g) (S k))
             (seq 0 (length (m_frames g))).
Proof.
  intros HF. rewrite play_unfold.
  destruct (segment_spec rolls) as (frames & Hseg & _).
  rewrite Hseg. cbn [bind].
  destruct (score_running rolls frames HF Hseg (length frames) (le_n _))
    as (st & E & _ & Ht & _ & Hs).
  rewrite firstn_all in E. rewrite E. cbn [bind].
  exists (totalScore st), (mkGame rolls (scores st) frames).
  cbn [m_frames m_scores]. auto.
Qed.

Lemma score_by_the_rules_witness :
  Forall valid_roll [10; 7; 3; 4; 2]
  /\ exists total g,
       play [10; 7; 3; 4; 2] = Ok (total, g)
       /\ total = running [10; 7; 3; 4; 2] (m_frames g) (length (m_frames g)).
Proof.
  assert (Forall valid_roll [10; 7; 3; 4; 2]) as H
      by (repeat (apply Forall_cons; [unfold valid_roll; lia |]); apply Forall_nil).
  split; [exact H |].
  destruct (score_by_the_rules [10; 7; 3; 4; 2] H) as (t & g & A & B & _).
  exists t, g. split; assumption.
Defined.

(** ** The third roll of the tenth frame *)


